(** * pdfdo-web: page-selection planning and watermark placement

    A shallow embedding of the two pieces of the module imported as
    [@/lib/pdf-utils] that carry logic of their own: [splitPdf] (which page indices are copied
    into which output document) and [addWatermark] (placeholder expansion
    and the rotated draw origin).

    Modelling conventions.
    - A JavaScript string is a [string]; its characters are code units
      below 256.
    - An integer-valued JavaScript number is a [Z]; [NaN] coming out of
      [parseInt] is [None].  [Split] follows the numbers as integers;
      [Binary64] follows the loop of the ranges branch on the binary64
      numbers they are from 2^53 on.
    - An array read [a[i]] is [Array_get a i : option Z], [None] standing
      for [undefined].
    - The pdf-lib and JSZip objects are not modelled: [splitPdf] returns the
      sequence of index lists it hands to [copyPages] together with the
      number that goes into each archive entry's name.  [Archive] gives the
      entries a JSZip folder holds after these calls, an entry being
      replaced when its name is used again, and the page count of a saved
      document, which is 1 for a document without pages.
    - The geometry of [addWatermark] is carried out over the real numbers. *)

From Stdlib Require Import ZArith List Bool Lia.
From Stdlib Require Import Strings.String Strings.Ascii.
From Stdlib Require Import Numbers.DecimalString Numbers.DecimalNat.
From Stdlib Require Import Reals Lra.
Import ListNotations.

Local Open Scope string_scope.
Local Open Scope Z_scope.

(** ** The JavaScript string primitives the module calls *)

Module JS.

(** [WhiteSpace] and [LineTerminator] code units below 256. *)
Definition isWhiteSpace (c : ascii) : bool :=
  let n := N_of_ascii c in
  ((n =? 9) || (n =? 10) || (n =? 11) || (n =? 12) || (n =? 13)
   || (n =? 32) || (n =? 160))%N.

Fixpoint trimStart (s : string) : string :=
  match s with
  | String c s' => if isWhiteSpace c then trimStart s' else s
  | EmptyString => EmptyString
  end.

Fixpoint trimEnd (s : string) : string :=
  match s with
  | String c s' =>
      match trimEnd s' with
      | EmptyString => if isWhiteSpace c then EmptyString else String c EmptyString
      | r => String c r
      end
  | EmptyString => EmptyString
  end.

(** [String.prototype.trim]. *)
Definition trim (s : string) : string := trimEnd (trimStart s).

(** [String.prototype.split] with a one-character separator. *)
Fixpoint split (sep : ascii) (s : string) : list string :=
  match s with
  | EmptyString => [EmptyString]
  | String c s' =>
      if Ascii.eqb c sep then EmptyString :: split sep s'
      else match split sep s' with
           | h :: t => String c h :: t
           | [] => [String c EmptyString]
           end
  end.

(** [String.prototype.includes] with a one-character needle. *)
Fixpoint includes (needle : ascii) (s : string) : bool :=
  match s with
  | EmptyString => false
  | String c s' => Ascii.eqb c needle || includes needle s'
  end.

(** Value of a character as a digit in some radix up to 36. *)
Definition digitValue (c : ascii) : option Z :=
  let n := Z.of_N (N_of_ascii c) in
  if (48 <=? n) && (n <=? 57) then Some (n - 48)
  else if (97 <=? n) && (n <=? 122) then Some (n - 97 + 10)
  else if (65 <=? n) && (n <=? 90) then Some (n - 65 + 10)
  else None.

(** The longest prefix of radix-[radix] digits, as a number; [acc] is the
    value read so far, [None] while no digit has been read. *)
Fixpoint digitsPrefix (radix : Z) (s : string) (acc : option Z) : option Z :=
  match s with
  | EmptyString => acc
  | String c s' =>
      match digitValue c with
      | Some d =>
          if d <? radix
          then digitsPrefix radix s'
                 (Some (match acc with Some a => a * radix + d | None => d end))
          else acc
      | None => acc
      end
  end.

(** [parseInt(s)] with no radix argument: leading white space is skipped, a
    sign is read, a [0x]/[0X] prefix selects radix 16, and the longest
    prefix of digits is the value; [None] is [NaN]. *)
Definition parseInt (s : string) : option Z :=
  let s1 := trimStart s in
  let '(sign, s2) :=
    match s1 with
    | String "-"%char r => (-1, r)
    | String "+"%char r => (1, r)
    | _ => (1, s1)
    end in
  let '(radix, s3) :=
    match s2 with
    | String "0"%char (String "x"%char r) => (16, r)
    | String "0"%char (String "X"%char r) => (16, r)
    | _ => (10, s2)
    end in
  option_map (Z.mul sign) (digitsPrefix radix s3 None).

(** [n.toString()] for a non-negative integer. *)
Definition toString (n : nat) : string :=
  NilZero.string_of_uint (Nat.to_uint n).

Fixpoint zeros (n : nat) : string :=
  match n with
  | O => EmptyString
  | S k => String "0"%char (zeros k)
  end.

(** [s.padStart(maxLength, '0')]; a [NaN] length counts as 0. *)
Definition padStart (maxLength : option Z) (s : string) : string :=
  let target := match maxLength with Some n => n | None => 0 end in
  let len := Z.of_nat (String.length s) in
  if target <=? len then s else zeros (Z.to_nat (target - len)) ++ s.

(** [s.replace(re, f)] for a global regular expression that never matches
    the empty string.  [matchAt s] says whether the expression matches at
    the start of [s], and then how many characters it consumes and what
    they are replaced by.  [skip] counts the characters of the last match
    that are still to be passed over. *)
Fixpoint replaceFrom (matchAt : string -> option (nat * string))
         (skip : nat) (s : string) : string :=
  match s with
  | EmptyString => EmptyString
  | String c s' =>
      match skip with
      | S k => replaceFrom matchAt k s'
      | O =>
          match matchAt s with
          | Some (n, r) => r ++ replaceFrom matchAt (Nat.pred n) s'
          | None => String c (replaceFrom matchAt 0 s')
          end
      end
  end.

Definition replace (matchAt : string -> option (nat * string)) (s : string)
  : string := replaceFrom matchAt 0 s.


Definition isDigit (c : ascii) : bool :=
  let n := N_of_ascii c in ((48 <=? n) && (n <=? 57))%N.

(** The longest prefix matching [\d*] and what follows it. *)
Fixpoint spanDigits (s : string) : string * string :=
  match s with
  | String c s' =>
      if isDigit c
      then let '(ds, rest) := spanDigits s' in (String c ds, rest)
      else (EmptyString, s)
  | EmptyString => (EmptyString, EmptyString)
  end.

(** What follows [pat] in [s], when [s] starts with [pat]. *)
Fixpoint dropPrefix (pat s : string) : option string :=
  match pat, s with
  | EmptyString, _ => Some s
  | String a pat', String b s' =>
      if Ascii.eqb a b then dropPrefix pat' s' else None
  | String _ _, EmptyString => None
  end.

(** A regular expression that is a literal text, replaced by [by_]. *)
Definition literal (pat by_ : string) (s : string) : option (nat * string) :=
  match dropPrefix pat s with
  | Some _ => Some (String.length pat, by_)
  | None => None
  end.

End JS.

(** ** [splitPdf] *)

Module Split.

Inductive Mode := Each | Ranges | Selected | Delete | Extract.

(** One [folder.file(name, bytes)] call: the number that goes into the
    entry's name and the indices given to [copyPages] for that document. *)
Definition Entry : Type := Z * list (option Z).

(** What a call of [splitPdf] does: it returns an archive built from a
    sequence of entries, or a single document, or it throws
    its only error, the invalid-split-mode one. *)
Inductive Output :=
| Zip (folderSuffix : string) (files : list Entry)
| Pdf (pages : list (option Z))
| Throw.

(** [a[i]]; [None] is [undefined]. *)
Definition Array_get (a : list Z) (i : Z) : option Z :=
  if i <? 0 then None else nth_error a (Z.to_nat i).

Definition Array_length (a : list Z) : Z := Z.of_nat (List.length a).

(** [a.includes(i)]. *)
Definition Array_includes (a : list Z) (i : Z) : bool :=
  existsb (Z.eqb i) a.

(** [sourceIndices || Array.from({ length: pageCount }, (_, i) => i)]; an
    array, even an empty one, is truthy. *)
Definition availableIndices (sourceIndices : option (list Z)) (pageCount : nat)
  : list Z :=
  match sourceIndices with
  | Some l => l
  | None => map Z.of_nat (seq 0 pageCount)
  end.

(** The loop [for (let j = start; j <= end; j++)] of the ranges branch.  It
    is entered with [fuel] equal to the number of iterations it makes. *)
Fixpoint rangeLoop (fuel : nat) (avail : list Z) (j end_ : Z)
         (pageIndices : list (option Z)) : list (option Z) :=
  match fuel with
  | O => pageIndices
  | S fuel' =>
      if j <=? end_
      then rangeLoop fuel' avail (j + 1) end_
             (if (0 <? j) && (j <=? Array_length avail)
              then pageIndices ++ [Array_get avail (j - 1)]
              else pageIndices)
      else pageIndices
  end.

(** The [pageIndices] built for one comma-separated part.  A comparison
    with [NaN] is false, so a loop with a [NaN] bound is not entered. *)
Definition partIndices (avail : list Z) (part : string) : list (option Z) :=
  if JS.includes "-"%char part then
    match map JS.parseInt (JS.split "-"%char part) with
    | Some start :: Some end_ :: _ =>
        rangeLoop (Z.to_nat (end_ - start + 1)) avail start end_ []
    | _ => []
    end
  else
    match JS.parseInt part with
    | Some pageNum =>
        if (0 <? pageNum) && (pageNum <=? Array_length avail)
        then [Array_get avail (pageNum - 1)]
        else []
    | None => []
    end.

(** [ranges.split(',').map(p => p.trim())]. *)
Definition rangeParts (ranges : string) : list string :=
  map JS.trim (JS.split ","%char ranges).

(** The body of [for (let i = 0; i < parts.length; i++)], from index [i]
    on: a part with no page writes no entry. *)
Fixpoint rangeFiles (avail : list Z) (i : Z) (parts : list string)
  : list Entry :=
  match parts with
  | [] => []
  | part :: rest =>
      let pageIndices := partIndices avail part in
      if (0 <? Z.of_nat (List.length pageIndices))
      then (i + 1, pageIndices) :: rangeFiles avail (i + 1) rest
      else rangeFiles avail (i + 1) rest
  end.

(** The [each] branch: one entry per position of [availableIndices]. *)
Definition eachFiles (avail : list Z) : list Entry :=
  map (fun i => (Z.of_nat i + 1, [Array_get avail (Z.of_nat i)]))
      (seq 0 (List.length avail)).

(** The [selected] branch: [for (const idx of selectedPages)]. *)
Fixpoint selectedFiles (avail : list Z) (selectedPages : list Z)
  : list Entry :=
  match selectedPages with
  | [] => []
  | idx :: rest =>
      if (0 <=? idx) && (idx <? Array_length avail)
      then (idx + 1, [Array_get avail idx]) :: selectedFiles avail rest
      else selectedFiles avail rest
  end.

(** The [delete] branch: [pageIndicesToKeep], built from position [i] on. *)
Fixpoint keepLoop (avail selectedPages : list Z) (i : nat) (fuel : nat)
  : list (option Z) :=
  match fuel with
  | O => []
  | S fuel' =>
      if negb (Array_includes selectedPages (Z.of_nat i))
      then Array_get avail (Z.of_nat i)
             :: keepLoop avail selectedPages (S i) fuel'
      else keepLoop avail selectedPages (S i) fuel'
  end.

Definition pageIndicesToKeep (avail selectedPages : list Z)
  : list (option Z) :=
  keepLoop avail selectedPages 0 (List.length avail).

(** The [extract] branch: [selectedPages.filter(...).map(...)]. *)
Definition indicesToExtract (avail selectedPages : list Z)
  : list (option Z) :=
  map (fun idx => Array_get avail idx)
      (filter (fun idx => (0 <=? idx) && (idx <? Array_length avail))
              selectedPages).

(** Truthiness of the optional arguments. *)
Definition truthyString (s : option string) : bool :=
  match s with
  | Some (String _ _) => true
  | _ => false
  end.

Definition nonEmptyArray (a : option (list Z)) : bool :=
  match a with
  | Some (_ :: _) => true
  | _ => false
  end.

Definition splitPdf (mode : Mode) (ranges : option string)
           (selectedPages sourceIndices : option (list Z)) (pageCount : nat)
  : Output :=
  let avail := availableIndices sourceIndices pageCount in
  match mode, ranges, selectedPages with
  | Each, _, _ => Zip "-split" (eachFiles avail)
  | Ranges, Some (String c r), _ =>
      Zip "-parts" (rangeFiles avail 0 (rangeParts (String c r)))
  | Selected, _, Some (p :: ps) =>
      Zip "-selected" (selectedFiles avail (p :: ps))
  | Delete, _, Some sel => Pdf (pageIndicesToKeep avail sel)
  | Extract, _, Some (p :: ps) => Pdf (indicesToExtract avail (p :: ps))
  | _, _, _ => Throw
  end.

(** The groups of an outcome: the index lists of its documents, in the
    order they are produced. *)
Definition groups (o : Output) : list (list (option Z)) :=
  match o with
  | Zip _ files => map snd files
  | Pdf pages => [pages]
  | Throw => []
  end.

End Split.

(** ** [addWatermark] *)

Module Watermark.

(** The regular expression [/{page:(\d+)}/g] with its replacement function
    [(_, width) => page.toString().padStart(parseInt(width), '0')]. *)
Definition pagePadded (page : nat) (s : string) : option (nat * string) :=
  match JS.dropPrefix "{page:" s with
  | Some rest =>
      let '(width, rest') := JS.spanDigits rest in
      match width, rest' with
      | String _ _, String "}"%char _ =>
          Some ((6 + String.length width + 1)%nat,
                JS.padStart (JS.parseInt width) (JS.toString page))
      | _, _ => None
      end
  | None => None
  end.

(** [currentText] for the page of index [idx] among [total] pages: the
    three [replace] calls, in the order they are made. *)
Definition currentText (text : string) (idx total : nat) : string :=
  let currentText := JS.replace (JS.literal "{page}" (JS.toString (idx + 1))) text in
  let currentText := JS.replace (JS.literal "{total}" (JS.toString total)) currentText in
  JS.replace (pagePadded (idx + 1)) currentText.

Local Open Scope R_scope.

(** [WatermarkOptions] without [color], which plays no part in where and
    how large the watermark is drawn; [file] only records whether a
    watermark document was given. *)
Record WatermarkOptions := {
  text : option string;
  size : option R;
  opacity : option R;
  file : bool;
  x : option R;
  y : option R;
  rotation : option R
}.

(** [o ?? d]. *)
Definition nullish (o : option R) (d : R) : R :=
  match o with
  | Some v => v
  | None => d
  end.

(** [o || d]: 0 is falsy.  ([NaN], falsy too, has no counterpart among
    the reals.) *)
Definition orElse (o : option R) (d : R) : R :=
  match o with
  | Some v => if Req_dec_T v 0 then d else v
  | None => d
  end.

(** The calls made on a page. *)
Inductive Draw :=
| DrawPage (x y width height opacity rotate : R)
| DrawText (text : string) (x y size opacity rotate : R).

(** Lines 325-341: the origin handed to [drawText]. *)
Definition textOrigin (width height xRatio yRatio rotationAngle
                       textWidth textHeight : R) : R * R :=
  let centerX := width * xRatio in
  let centerY := height * (1 - yRatio) in
  let rad := (rotationAngle * PI) / 180 in
  let cos := cos rad in
  let sin := sin rad in
  let vX := textWidth / 2 in
  let vY := textHeight / 2 in
  let rotatedVX := vX * cos - vY * sin in
  let rotatedVY := vX * sin + vY * cos in
  let drawX := centerX - rotatedVX in
  let drawY := centerY - rotatedVY in
  (drawX, drawY).

Section Font.

(** The embedded font, through the two measurements taken of it. *)
Variable widthOfTextAtSize : string -> R -> R.
Variable heightAtSize : R -> R.

(** [pages.forEach((page, idx) => ...)] of the text branch, from index
    [idx] on. *)
Fixpoint drawTexts (text : string) (textSize opacity xRatio yRatio
                    rotationAngle : R) (total idx : nat)
         (pages : list (R * R)) : list Draw :=
  match pages with
  | [] => []
  | (width, height) :: rest =>
      let currentText := currentText text idx total in
      let textWidth := widthOfTextAtSize currentText textSize in
      let textHeight := heightAtSize textSize in
      let '(drawX, drawY) :=
        textOrigin width height xRatio yRatio rotationAngle
                   textWidth textHeight in
      DrawText currentText drawX drawY textSize opacity rotationAngle
        :: drawTexts text textSize opacity xRatio yRatio rotationAngle
                     total (S idx) rest
  end.

(** The drawing calls of [addWatermark], one page after the other; each
    page is given by its width and height. *)
Definition addWatermark (options : WatermarkOptions) (pages : list (R * R))
  : list Draw :=
  let xRatio := nullish (x options) (1 / 2) in
  let yRatio := nullish (y options) (1 / 2) in
  let rotationAngle :=
    nullish (rotation options)
            (match text options with Some (String _ _) => 45 | _ => 0 end) in
  if file options then
    map (fun '(width, height) =>
           DrawPage (width * xRatio - width / 2)
                    (height * (1 - yRatio) - height / 2)
                    width height
                    (orElse (opacity options) (1 / 2))
                    rotationAngle) pages
  else
    match text options with
    | Some (String c t) =>
        let textSize := orElse (size options) 50 in
        let text := String c t in
        let opacity := orElse (opacity options) (1 / 2) in
        drawTexts text textSize opacity xRatio yRatio rotationAngle
                  (List.length pages) 0 pages
    | _ => []
    end.

End Font.

End Watermark.

(** ** The vocabulary of the specification

    These definitions follow the wording of the specification; the
    theorems below compare them with the code above. *)

Module Spec.

(** The positions [start, start+1, ..., end_]; none when [end_ < start]. *)
Definition interval (start end_ : Z) : list Z :=
  map (fun k => start + Z.of_nat k) (seq 0 (Z.to_nat (end_ - start + 1))).

(** What a 1-based position contributes: view element [p-1] when
    [1 <= p <= viewSize], nothing otherwise. *)
Definition viewAt (view : list Z) (p : Z) : list (option Z) :=
  if (1 <=? p) && (p <=? Z.of_nat (List.length view))
  then [nth_error view (Z.to_nat (p - 1))]
  else [].

(** The integers a token stands for: [start-end] is the interval, a token
    without [-] a single integer. *)
Definition tokenPositions (token : string) : list Z :=
  if JS.includes "-"%char token then
    match map JS.parseInt (JS.split "-"%char token) with
    | Some start :: Some end_ :: _ => interval start end_
    | _ => []
    end
  else
    match JS.parseInt token with
    | Some p => [p]
    | None => []
    end.

Definition tokenGroup (view : list Z) (token : string) : list (option Z) :=
  flat_map (viewAt view) (tokenPositions token).

(** The view elements at the supplied 0-based positions that are in range,
    in the order the positions are supplied. *)
Definition atPositions (view : list Z) (positions : list Z) : list Z :=
  flat_map (fun i =>
              if (0 <=? i) && (i <? Z.of_nat (List.length view))
              then match nth_error view (Z.to_nat i) with
                   | Some v => [v]
                   | None => []
                   end
              else []) positions.

(** The view elements whose 0-based position, counted from [i], is not
    excluded, in view order. *)
Fixpoint complement (excluded : list Z) (i : Z) (view : list Z) : list Z :=
  match view with
  | [] => []
  | v :: rest =>
      if existsb (Z.eqb i) excluded
      then complement excluded (i + 1) rest
      else v :: complement excluded (i + 1) rest
  end.

(** A watermark text cut into plain stretches and placeholders. *)
Inductive Piece :=
| Plain (s : string)
| Page
| Total
| PagePad (width : string).

Fixpoint allChars (p : ascii -> bool) (s : string) : bool :=
  match s with
  | EmptyString => true
  | String c s' => p c && allChars p s'
  end.

Definition notBrace (c : ascii) : bool := negb (Ascii.eqb c "{"%char).

(** A plain stretch has no opening brace; a width is a non-empty run of
    digits. *)
Definition wellFormed (p : Piece) : bool :=
  match p with
  | Plain s => allChars notBrace s
  | PagePad width =>
      allChars JS.isDigit width && negb (String.eqb width EmptyString)
  | _ => true
  end.

Definition pieceText (p : Piece) : string :=
  match p with
  | Plain s => s
  | Page => "{page}"
  | Total => "{total}"
  | PagePad width => "{page:" ++ width ++ "}"
  end.

(** What a piece becomes on page number [page] of [total]. *)
Definition pieceValue (page total : nat) (p : Piece) : string :=
  match p with
  | Plain s => s
  | Page => JS.toString page
  | Total => JS.toString total
  | PagePad width => JS.padStart (JS.parseInt width) (JS.toString page)
  end.

Definition textOf (ps : list Piece) : string :=
  fold_right (fun p rest => pieceText p ++ rest) EmptyString ps.

Definition valueOf (page total : nat) (ps : list Piece) : string :=
  fold_right (fun p rest => pieceValue page total p ++ rest) EmptyString ps.

Definition withOpacity (o : option R) (w : Watermark.WatermarkOptions)
  : Watermark.WatermarkOptions :=
  {| Watermark.text := Watermark.text w;
     Watermark.size := Watermark.size w;
     Watermark.opacity := o;
     Watermark.file := Watermark.file w;
     Watermark.x := Watermark.x w;
     Watermark.y := Watermark.y w;
     Watermark.rotation := Watermark.rotation w |}.

Definition withSize (s : option R) (w : Watermark.WatermarkOptions)
  : Watermark.WatermarkOptions :=
  {| Watermark.text := Watermark.text w;
     Watermark.size := s;
     Watermark.opacity := Watermark.opacity w;
     Watermark.file := Watermark.file w;
     Watermark.x := Watermark.x w;
     Watermark.y := Watermark.y w;
     Watermark.rotation := Watermark.rotation w |}.

Definition drawOpacity (d : Watermark.Draw) : R :=
  match d with
  | Watermark.DrawPage _ _ _ _ o _ => o
  | Watermark.DrawText _ _ _ _ o _ => o
  end.

Definition drawSize (d : Watermark.Draw) : option R :=
  match d with
  | Watermark.DrawPage _ _ _ _ _ _ => None
  | Watermark.DrawText _ _ _ s _ _ => Some s
  end.

(** What each pass of [currentText] does to a piece. *)
Definition afterPage (page : nat) (p : Piece) : Piece :=
  match p with
  | Page => Plain (JS.toString page)
  | _ => p
  end.

Definition afterTotal (total : nat) (p : Piece) : Piece :=
  match p with
  | Total => Plain (JS.toString total)
  | _ => p
  end.

Definition afterPagePad (page : nat) (p : Piece) : Piece :=
  match p with
  | PagePad width =>
      Plain (JS.padStart (JS.parseInt width) (JS.toString page))
  | _ => p
  end.

(** The half-extent vector of the text, turned by [rotationAngle] degrees
    counterclockwise. *)
Definition rotatedHalfExtent (rotationAngle textWidth textHeight : R)
  : R * R :=
  let theta := (rotationAngle * PI / 180)%R in
  (textWidth / 2 * cos theta - textHeight / 2 * sin theta,
   textWidth / 2 * sin theta + textHeight / 2 * cos theta)%R.

End Spec.

(** ** The other operations of [@/lib/pdf-utils]

    A loaded document is the list of its pages.  Of pdf-lib four facts
    are used: [getPageIndices()] is [0, ..., pageCount-1], [copyPages(doc,
    indices)] returns the pages of [doc] at [indices], in that order,
    [addPage] appends, and [save()] gives a document that has no page one
    blank page. *)

Module PdfOps.

Section Pages.

Variable Page : Type.

Definition getPageIndices (doc : list Page) : list nat :=
  seq 0 (List.length doc).

Definition copyPages (doc : list Page) (indices : list nat)
  : list (option Page) :=
  map (nth_error doc) indices.

(** [copiedPages.forEach(page => mergedPdf.addPage(page))]; an index that
    is out of range gives no page. *)
Fixpoint addPages (merged : list Page) (copied : list (option Page))
  : list Page :=
  match copied with
  | [] => merged
  | Some page :: rest => addPages (merged ++ [page]) rest
  | None :: rest => addPages merged rest
  end.

(** The page [save()] adds to a document without pages. *)
Variable blank : Page.

Definition save (doc : list Page) : list Page :=
  match doc with
  | [] => [blank]
  | _ :: _ => doc
  end.

(** [mergePdfs]: the pages of the document that is returned. *)
Definition mergePdfs (files : list (list Page)) : list Page :=
  save
    (fold_left (fun mergedPdf pdfDoc =>
                  addPages mergedPdf
                           (copyPages pdfDoc (getPageIndices pdfDoc)))
               files []).

End Pages.

Local Open Scope R_scope.

Record Margins := {
  left : R;
  right : R;
  top : R;
  bottom : R
}.

(** The arguments of [setCropBox]. *)
Record CropBox := {
  boxX : R;
  boxY : R;
  boxWidth : R;
  boxHeight : R
}.

(** [cropPdf]: the crop box given to each page, a page being given by its
    width and height. *)
Definition cropPdf (pages : list (R * R)) (margins : Margins)
  : list CropBox :=
  map (fun '(width, height) =>
         {| boxX := left margins;
            boxY := bottom margins;
            boxWidth := width - left margins - right margins;
            boxHeight := height - top margins - bottom margins |}) pages.

End PdfOps.

(** ** The colour of a text watermark *)

Module WatermarkColor.

(** [s.slice(start, end_)] for [0 <= start <= end_]. *)
Definition slice (start end_ : nat) (s : string) : string :=
  String.substring start (end_ - start) s.

(** [parseInt(s, 16)]: as [parseInt(s)], the radix being 16 with or
    without a [0x] prefix. *)
Definition parseInt16 (s : string) : option Z :=
  let s1 := JS.trimStart s in
  let '(sign, s2) :=
    match s1 with
    | String "-"%char r => (-1, r)
    | String "+"%char r => (1, r)
    | _ => (1, s1)
    end in
  let s3 :=
    match s2 with
    | String "0"%char (String "x"%char r) => r
    | String "0"%char (String "X"%char r) => r
    | _ => s2
    end in
  option_map (Z.mul sign) (JS.digitsPrefix 16 s3 None).

(** Lines 299-305: the three numerators of [rgb(r, g, b)], each to be
    divided by 255; [None] is [NaN].  Without a colour the text is black. *)
Definition colorChannels (color : option string)
  : option Z * option Z * option Z :=
  match color with
  | Some (String c s) =>
      let color := String c s in
      (parseInt16 (slice 1 3 color),
       parseInt16 (slice 3 5 color),
       parseInt16 (slice 5 7 color))
  | _ => (Some 0, Some 0, Some 0)
  end.

End WatermarkColor.

(** ** The split panel *)

Module SplitTool.

(** [PageData] without its image. *)
Record PageData := {
  id : string;
  originalIndex : nat
}.

Section Thumbnails.

(** Whether [renderPageAsImage] succeeds on a page, and the value of
    [Date.now()] when that page is reached. *)
Variable renders : nat -> bool.
Variable now : nat -> nat.

(** The thumbnail loop of [handleFilesSelected], from index [i] on, with
    [fuel] iterations left: a page that fails to render is left out. *)
Fixpoint thumbnailLoop (i fuel : nat) : list PageData :=
  match fuel with
  | O => []
  | S fuel' =>
      if renders i
      then {| id := "page-" ++ JS.toString i ++ "-" ++ JS.toString (now i);
              originalIndex := i |}
             :: thumbnailLoop (S i) fuel'
      else thumbnailLoop (S i) fuel'
  end.

(** The [pages] set by [handleFilesSelected]. *)
Definition loadPages (pageCount : nat) : list PageData :=
  let limit := Nat.min pageCount 50 in
  thumbnailLoop 0 limit.

End Thumbnails.

(** [a.includes(id)] on strings. *)
Definition includesId (a : list string) (x : string) : bool :=
  existsb (String.eqb x) a.

Definition togglePageSelection (prev : list string) (x : string)
  : list string :=
  if includesId prev x
  then filter (fun p => negb (String.eqb p x)) prev
  else (prev ++ [x])%list.

(** [handleRemovePages]: the new [pages] and [selectedIds]. *)
Definition handleRemovePages (pages : list PageData)
           (selectedIds : list string) : list PageData * list string :=
  match selectedIds with
  | [] => (pages, selectedIds)
  | _ :: _ =>
      (filter (fun p => negb (includesId selectedIds (id p))) pages, [])
  end.

Definition originalIndices (pages : list PageData) : list Z :=
  map (fun p => Z.of_nat (originalIndex p)) pages.

(** The call of [splitPdf] made by [handleSplit] when a file is loaded. *)
Definition handleSplit (mode : Split.Mode) (ranges : string)
           (selectedIds : list string) (pages : list PageData)
           (pageCount : nat) : Split.Output :=
  let currentIndices := originalIndices pages in
  let selectedOriginalIndices :=
    originalIndices
      (filter (fun p => includesId selectedIds (id p)) pages) in
  match mode with
  | Split.Delete =>
      Split.splitPdf Split.Extract None (Some currentIndices) None pageCount
  | Split.Extract =>
      Split.splitPdf Split.Extract None (Some selectedOriginalIndices)
                     None pageCount
  | Split.Selected =>
      Split.splitPdf Split.Selected None (Some selectedOriginalIndices)
                     None pageCount
  | Split.Each =>
      Split.splitPdf Split.Each None None (Some currentIndices) pageCount
  | Split.Ranges =>
      Split.splitPdf Split.Ranges (Some ranges) None (Some currentIndices)
                     pageCount
  end.

End SplitTool.

(** ** The watermark and crop panels *)

Module WatermarkTool.

Local Open Scope R_scope.

(** [Math.max(0, Math.min(1, x))]. *)
Definition clamp (x : R) : R := Rmax 0 (Rmin 1 x).

(** The position set by [handleMouseMove] while dragging over the preview
    rectangle ([left], [top], [width], [height]). *)
Definition handleMouseMove (clientX clientY left top width height : R)
  : R * R :=
  let x := (clientX - left) / width in
  let y := (clientY - top) / height in
  let clampedX := clamp x in
  let clampedY := clamp y in
  (clampedX, clampedY).

End WatermarkTool.

Module CropTool.

Local Open Scope R_scope.

(** The fields a margin input can set. *)
Inductive Side := Top | Bottom | Left | Right.

(** [setMargins({ ...margins, side: Math.max(0, Number(value)) })]. *)
Definition setMargin (side : Side) (value : R) (margins : PdfOps.Margins)
  : PdfOps.Margins :=
  let v := Rmax 0 value in
  match side with
  | Top =>
      {| PdfOps.left := PdfOps.left margins;
         PdfOps.right := PdfOps.right margins;
         PdfOps.top := v;
         PdfOps.bottom := PdfOps.bottom margins |}
  | Bottom =>
      {| PdfOps.left := PdfOps.left margins;
         PdfOps.right := PdfOps.right margins;
         PdfOps.top := PdfOps.top margins;
         PdfOps.bottom := v |}
  | Left =>
      {| PdfOps.left := v;
         PdfOps.right := PdfOps.right margins;
         PdfOps.top := PdfOps.top margins;
         PdfOps.bottom := PdfOps.bottom margins |}
  | Right =>
      {| PdfOps.left := PdfOps.left margins;
         PdfOps.right := v;
         PdfOps.top := PdfOps.top margins;
         PdfOps.bottom := PdfOps.bottom margins |}
  end.

(** The margins of a freshly loaded file. *)
Definition noMargins : PdfOps.Margins :=
  {| PdfOps.left := 0; PdfOps.right := 0;
     PdfOps.top := 0; PdfOps.bottom := 0 |}.

(** The margins after a sequence of input events, oldest first. *)
Definition afterInputs (events : list (Side * R)) : PdfOps.Margins :=
  fold_left (fun margins '(side, value) => setMargin side value margins)
            events noMargins.

End CropTool.

(** ** The ranges loop on binary64 numbers

    The bounds and the counter of the loop of the ranges branch are
    JavaScript numbers.  [Split.rangeLoop] follows them as integers, which
    is what they are as long as they stay below 2^53; this module follows
    them as the integer-valued binary64 numbers they are beyond, where
    [j++] no longer adds 1.  No part passed to [parseInt] holds a minus
    sign, so the numbers are never negative, and an array has fewer than
    2^32 elements. *)

Module Binary64.

Definition two53 : Z := 9007199254740992.

(** The binary64 number nearest to a non-negative integer, ties to even:
    the value of a numeral. *)
Definition roundDouble (v : Z) : Z :=
  if v <? two53 then v
  else
    let k := Z.log2 v - 52 in
    let q := v / 2 ^ k in
    let r := v mod 2 ^ k in
    let half := 2 ^ (k - 1) in
    if r <? half then q * 2 ^ k
    else if half <? r then (q + 1) * 2 ^ k
    else if Z.even q then q * 2 ^ k
    else (q + 1) * 2 ^ k.

(** [j++]. *)
Definition succDouble (j : Z) : Z := roundDouble (j + 1).

(** The loop [for (let j = start; j <= end; j++)], run for at most [fuel]
    tests of its condition: [None] when it is still running after them. *)
Fixpoint rangeLoop (fuel : nat) (avail : list Z) (j end_ : Z)
         (pageIndices : list (option Z)) : option (list (option Z)) :=
  match fuel with
  | O => None
  | S fuel' =>
      if j <=? end_
      then rangeLoop fuel' avail (succDouble j) end_
             (if (0 <? j) && (j <=? Split.Array_length avail)
              then pageIndices ++ [Split.Array_get avail (j - 1)]
              else pageIndices)
      else Some pageIndices
  end.

(** The [pageIndices] built for one part, when the loop returns within
    [fuel] tests. *)
Definition partIndices (fuel : nat) (avail : list Z) (part : string)
  : option (list (option Z)) :=
  if JS.includes "-"%char part then
    match map JS.parseInt (JS.split "-"%char part) with
    | Some start :: Some end_ :: _ =>
        rangeLoop fuel avail (roundDouble start) (roundDouble end_) []
    | _ => Some []
    end
  else
    match JS.parseInt part with
    | Some pageNum =>
        let pageNum := roundDouble pageNum in
        Some (if (0 <? pageNum) && (pageNum <=? Split.Array_length avail)
              then [Split.Array_get avail (pageNum - 1)]
              else [])
    | None => Some []
    end.

End Binary64.

(** ** The archive and the saved document *)

Module Archive.

(** JSZip: [folder.file(name, data)] adds an entry, or replaces the data of
    the entry that has this name.  Within one call of [splitPdf] two names
    differ only by the number they carry. *)
Fixpoint file (entries : list Split.Entry) (e : Split.Entry)
  : list Split.Entry :=
  match entries with
  | [] => [e]
  | old :: rest =>
      if fst old =? fst e then e :: rest else old :: file rest e
  end.

(** The entries of the archive after a sequence of [folder.file] calls. *)
Definition entries (calls : list Split.Entry) : list Split.Entry :=
  fold_left file calls [].

(** The documents an outcome holds: those of the archive, or the single
    document. *)
Definition documents (o : Split.Output) : list (list (option Z)) :=
  match o with
  | Split.Zip _ files => map snd (entries files)
  | Split.Pdf pages => [pages]
  | Split.Throw => []
  end.

(** pdf-lib: the page count of a saved document into which [copied] pages
    were copied; [save()] gives a document that has no page one blank
    page. *)
Definition savedPageCount (copied : nat) : nat :=
  match copied with
  | O => 1%nat
  | S _ => copied
  end.

(** The page count of the single document of an outcome. *)
Definition savedPages (o : Split.Output) : option nat :=
  match o with
  | Split.Pdf pages => Some (savedPageCount (List.length pages))
  | _ => None
  end.

End Archive.

(** ** Further vocabulary for the statements below *)

(** A part whose numerals are below 2^53, where binary64 numbers are the
    integers they stand for. *)
Definition safePart (part : string) : bool :=
  if JS.includes "-"%char part then
    match map JS.parseInt (JS.split "-"%char part) with
    | Some start :: Some end_ :: _ =>
        (start <? Binary64.two53) && (end_ <? Binary64.two53)
    | _ => true
    end
  else
    match JS.parseInt part with
    | Some pageNum => pageNum <? Binary64.two53
    | None => true
    end.

(** A string that neither starts nor ends with white space. *)
Definition startsClean (s : string) : bool :=
  match s with
  | String c _ => negb (JS.isWhiteSpace c)
  | EmptyString => true
  end.

Fixpoint endsClean (s : string) : bool :=
  match s with
  | EmptyString => true
  | String c EmptyString => negb (JS.isWhiteSpace c)
  | String _ s' => endsClean s'
  end.

(** Every page of the view is a page of the file. *)
Definition validPages (pageCount : nat) (pages : list SplitTool.PageData)
  : Prop :=
  Forall (fun p => (SplitTool.originalIndex p < pageCount)%nat) pages.

Definition nonNegative (m : PdfOps.Margins) : Prop :=
  (0 <= PdfOps.left m /\ 0 <= PdfOps.right m
   /\ 0 <= PdfOps.top m /\ 0 <= PdfOps.bottom m)%R.

Definition isHexDigit (c : ascii) : bool :=
  match JS.digitValue c with
  | Some d => d <? 16
  | None => false
  end.

Definition hexValue (c : ascii) : Z :=
  match JS.digitValue c with
  | Some d => d
  | None => 0
  end.

(** ** Strings of digits *)

Lemma string_app_assoc (a b c : string) : (a ++ b) ++ c = a ++ (b ++ c).
Proof. induction a as [|x a IH]; cbn; [reflexivity | now rewrite IH]. Qed.

Lemma string_length_app (a b : string) :
  String.length (a ++ b) = (String.length a + String.length b)%nat.
Proof. induction a as [|x a IH]; cbn; [reflexivity | now rewrite IH]. Qed.

Lemma allChars_app (p : ascii -> bool) (a b : string) :
  Spec.allChars p (a ++ b) = Spec.allChars p a && Spec.allChars p b.
Proof.
  induction a as [|x a IH]; cbn; [reflexivity|].
  now rewrite IH, andb_assoc.
Qed.

Lemma isDigit_notBrace (c : ascii) :
  JS.isDigit c = true -> Spec.notBrace c = true.
Proof.
  unfold Spec.notBrace. destruct (Ascii.eqb_spec c "{"%char) as [->|_];
    [discriminate | reflexivity].
Qed.

Lemma digits_notBrace (s : string) :
  Spec.allChars JS.isDigit s = true -> Spec.allChars Spec.notBrace s = true.
Proof.
  induction s as [|c s IH]; cbn; [reflexivity|].
  intros [Hc Hs]%andb_prop. now rewrite isDigit_notBrace, IH.
Qed.

Lemma string_of_uint_digits (d : Decimal.uint) :
  Spec.allChars JS.isDigit (NilEmpty.string_of_uint d) = true.
Proof.
  induction d as [|d IH|d IH|d IH|d IH|d IH|d IH|d IH|d IH|d IH|d IH];
    cbn [NilEmpty.string_of_uint Spec.allChars];
    [reflexivity | rewrite IH; reflexivity ..].
Qed.

Lemma toString_digits (n : nat) :
  Spec.allChars JS.isDigit (JS.toString n) = true.
Proof.
  unfold JS.toString, NilZero.string_of_uint.
  destruct (Nat.to_uint n) eqn:E; [reflexivity| ..];
    rewrite <- E; apply string_of_uint_digits.
Qed.

Lemma spanDigits_run (width rest : string) :
  Spec.allChars JS.isDigit width = true ->
  JS.spanDigits (width ++ String "}"%char rest)
  = (width, String "}"%char rest).
Proof.
  induction width as [|c width IH]; cbn; [reflexivity|].
  intros [Hc Hw]%andb_prop. now rewrite Hc, IH.
Qed.

Lemma isDigit_cases (c : ascii) :
  JS.isDigit c = true ->
  In c ["0"; "1"; "2"; "3"; "4"; "5"; "6"; "7"; "8"; "9"]%char.
Proof.
  destruct c as [[|] [|] [|] [|] [|] [|] [|] [|]]; intros H;
    vm_compute in H; try discriminate H; cbn; tauto.
Qed.

Ltac digit_cases c H :=
  apply isDigit_cases in H;
  repeat (destruct H as [H|H]; [subst c|]); [..|contradiction H].

Ltac digit_step :=
  match goal with
  | |- context [JS.digitValue ?c] =>
      let v := eval vm_compute in (JS.digitValue c) in
      change (JS.digitValue c) with v; cbv iota;
      match goal with
      | |- context [?a <? ?r] =>
          let b := eval vm_compute in (a <? r) in
          change (a <? r) with b; cbv iota
      end
  end.

Lemma digitsPrefix_uint (d : Decimal.uint) :
  forall acc : nat,
    JS.digitsPrefix 10 (NilEmpty.string_of_uint d) (Some (Z.of_nat acc))
    = Some (Z.of_nat (Nat.of_uint_acc d acc)).
Proof.
  induction d as [|d IH|d IH|d IH|d IH|d IH|d IH|d IH|d IH|d IH|d IH];
    intros acc; [reflexivity|..];
    cbn [NilEmpty.string_of_uint Nat.of_uint_acc]; rewrite <- IH;
    cbn [JS.digitsPrefix]; digit_step;
    do 2 f_equal; rewrite ?Nat.tail_mul_spec; lia.
Qed.

Lemma digitsPrefix_zeros (k : nat) (s : string) :
  JS.digitsPrefix 10 (JS.zeros k ++ s) (Some 0)
  = JS.digitsPrefix 10 s (Some 0).
Proof. induction k as [|k IH]; [reflexivity | exact IH]. Qed.

Lemma parseInt_digits (s : string) :
  Spec.allChars JS.isDigit s = true ->
  s <> EmptyString ->
  JS.parseInt s = JS.digitsPrefix 10 s (Some 0).
Proof.
  destruct s as [|c s]; [congruence|]. cbn [Spec.allChars].
  intros [Hc Hs]%andb_prop _.
  digit_cases c Hc;
    try (unfold JS.parseInt; cbn -[Z.mul Z.add];
         now destruct (JS.digitsPrefix 10 s _) as [[| |]|]).
  destruct s as [|c' s].
  - reflexivity.
  - cbn [Spec.allChars] in Hs. apply andb_prop in Hs as [Hc' Hs].
    digit_cases c' Hc';
      unfold JS.parseInt; cbn -[Z.mul Z.add];
        now destruct (JS.digitsPrefix 10 s _) as [[| |]|].
Qed.

Lemma zeros_digits (k : nat) : Spec.allChars JS.isDigit (JS.zeros k) = true.
Proof. induction k as [|k IH]; [reflexivity | exact IH]. Qed.

Lemma toString_nonempty (n : nat) : JS.toString n <> EmptyString.
Proof.
  unfold JS.toString, NilZero.string_of_uint.
  destruct (Nat.to_uint n); discriminate.
Qed.

Lemma digitsPrefix_toString (n : nat) :
  JS.digitsPrefix 10 (JS.toString n) (Some 0) = Some (Z.of_nat n).
Proof.
  rewrite <- (Unsigned.of_to n) at 2.
  unfold JS.toString, NilZero.string_of_uint, Nat.of_uint.
  destruct (Nat.to_uint n) eqn:E; [reflexivity|..];
    rewrite <- E; exact (digitsPrefix_uint _ 0%nat).
Qed.

(** [parseInt] reads a decimal numeral, leading zeros or not, as its
    value. *)
Lemma parseInt_decimal (k n : nat) :
  JS.parseInt (JS.zeros k ++ JS.toString n) = Some (Z.of_nat n).
Proof.
  rewrite parseInt_digits.
  - now rewrite digitsPrefix_zeros, digitsPrefix_toString.
  - now rewrite allChars_app, zeros_digits, toString_digits.
  - destruct k; [apply toString_nonempty | discriminate].
Qed.

Lemma parseInt_toString (n : nat) :
  JS.parseInt (JS.toString n) = Some (Z.of_nat n).
Proof. exact (parseInt_decimal 0 n). Qed.

Lemma split_without (sep : ascii) (s : string) :
  JS.includes sep s = false -> JS.split sep s = [s].
Proof.
  induction s as [|c s IH]; cbn; [reflexivity|].
  intros [Hc Hs]%orb_false_elim. now rewrite Hc, IH.
Qed.

Lemma split_around (sep : ascii) (a b : string) :
  JS.includes sep a = false ->
  JS.split sep (a ++ String sep b) = a :: JS.split sep b.
Proof.
  induction a as [|c a IH]; cbn.
  - now rewrite Ascii.eqb_refl.
  - intros [Hc Ha]%orb_false_elim. now rewrite Hc, IH.
Qed.

Lemma includes_around (sep : ascii) (a b : string) :
  JS.includes sep (a ++ String sep b) = true.
Proof.
  induction a as [|c a IH]; cbn.
  - now rewrite Ascii.eqb_refl.
  - rewrite IH. apply orb_true_r.
Qed.

Lemma digits_without_dash (s : string) :
  Spec.allChars JS.isDigit s = true -> JS.includes "-"%char s = false.
Proof.
  induction s as [|c s IH]; cbn; [reflexivity|].
  intros [Hc Hs]%andb_prop. rewrite (IH Hs), orb_false_r.
  digit_cases c Hc; reflexivity.
Qed.

Lemma tokenPositions_interval (a b : nat) :
  Spec.tokenPositions (JS.toString a ++ "-" ++ JS.toString b)
  = Spec.interval (Z.of_nat a) (Z.of_nat b).
Proof.
  unfold Spec.tokenPositions. cbn [append].
  rewrite includes_around.
  rewrite split_around by apply digits_without_dash, toString_digits.
  rewrite split_without by apply digits_without_dash, toString_digits.
  cbn [map].
  now rewrite !parseInt_toString.
Qed.

Lemma tokenPositions_single (n : nat) :
  Spec.tokenPositions (JS.toString n) = [Z.of_nat n].
Proof.
  unfold Spec.tokenPositions.
  rewrite digits_without_dash by apply toString_digits.
  now rewrite parseInt_toString.
Qed.

Lemma padStart_zeros (width : nat) (s : string) :
  JS.padStart (Some (Z.of_nat width)) s
  = JS.zeros (width - String.length s) ++ s.
Proof.
  unfold JS.padStart.
  destruct (Z.leb_spec (Z.of_nat width) (Z.of_nat (String.length s))).
  - now replace (width - String.length s)%nat with O by lia.
  - f_equal. f_equal. lia.
Qed.

(** ** Array reads under the guards of [splitPdf] *)

Section ArrayFacts.

Import Split.

Variable avail : list Z.

Lemma Array_get_nth_error (i : Z) :
  0 <= i -> Array_get avail i = nth_error avail (Z.to_nat i).
Proof.
  intros Hi. unfold Array_get.
  destruct (Z.ltb_spec i 0); [lia | reflexivity].
Qed.

Lemma Array_get_in_range (i : Z) :
  0 <= i < Array_length avail ->
  exists v, Array_get avail i = Some v /\ In v avail.
Proof.
  intros [Hlo Hhi]. unfold Array_length in Hhi.
  rewrite Array_get_nth_error by assumption.
  destruct (nth_error avail (Z.to_nat i)) as [v|] eqn:E.
  - exists v. split; [reflexivity | eapply nth_error_In; eassumption].
  - apply nth_error_None in E. lia.
Qed.

End ArrayFacts.

Lemma Array_get_app_middle (pre rest : list Z) (v : Z) :
  Split.Array_get (pre ++ v :: rest) (Z.of_nat (List.length pre)) = Some v.
Proof.
  rewrite Array_get_nth_error by lia.
  rewrite Nat2Z.id, nth_error_app2 by lia.
  now rewrite Nat.sub_diag.
Qed.

(** ** The ranges branch *)

Section RangesFacts.

Import Split.

Variable avail : list Z.

Lemma interval_unfold (start end_ : Z) :
  start <= end_ ->
  Spec.interval start end_ = start :: Spec.interval (start + 1) end_.
Proof.
  intros H. unfold Spec.interval.
  replace (Z.to_nat (end_ - start + 1))
    with (S (Z.to_nat (end_ - (start + 1) + 1))) by lia.
  cbn [seq map]. f_equal; [lia|].
  rewrite <- seq_shift, map_map.
  apply map_ext. intros k. lia.
Qed.

Lemma interval_empty (start end_ : Z) :
  end_ < start -> Spec.interval start end_ = [].
Proof.
  intros H. unfold Spec.interval.
  now replace (Z.to_nat (end_ - start + 1)) with O by lia.
Qed.

Lemma interval_In (start end_ p : Z) :
  In p (Spec.interval start end_) <-> start <= p <= end_.
Proof.
  unfold Spec.interval. rewrite in_map_iff. split.
  - intros (k & <- & Hk). apply in_seq in Hk. lia.
  - intros H. exists (Z.to_nat (p - start)). split; [lia|].
    apply in_seq. lia.
Qed.

(** The loop visits the positions of the interval in order and keeps
    those that fall inside the view. *)
Lemma rangeLoop_interval (fuel : nat) :
  forall (j end_ : Z) (acc : list (option Z)),
    fuel = Z.to_nat (end_ - j + 1) ->
    rangeLoop fuel avail j end_ acc
    = (acc ++ flat_map (Spec.viewAt avail) (Spec.interval j end_))%list.
Proof.
  induction fuel as [|fuel IH]; intros j end_ acc Hfuel.
  - rewrite interval_empty by lia. cbn. now rewrite app_nil_r.
  - cbn [rangeLoop].
    destruct (Z.leb_spec j end_) as [Hle|Hgt]; [|lia].
    rewrite IH by lia.
    rewrite (interval_unfold j end_) by assumption.
    cbn [flat_map]. unfold Spec.viewAt at 2. unfold Array_length.
    replace (1 <=? j) with (0 <? j) by (destruct (Z.ltb_spec 0 j), (Z.leb_spec 1 j); lia || reflexivity).
    destruct ((0 <? j) && (j <=? Z.of_nat (List.length avail))) eqn:G.
    + apply andb_prop in G as [G1 G2].
      apply Z.ltb_lt in G1.
      rewrite Array_get_nth_error by lia.
      now rewrite <- app_assoc.
    + reflexivity.
Qed.

Lemma partIndices_tokenGroup (part : string) :
  partIndices avail part = Spec.tokenGroup avail part.
Proof.
  unfold partIndices, Spec.tokenGroup, Spec.tokenPositions.
  destruct (JS.includes "-" part).
  - destruct (map JS.parseInt (JS.split "-" part)) as [|[start|] [|[end_|] l]];
      try reflexivity.
    now rewrite rangeLoop_interval.
  - destruct (JS.parseInt part) as [p|]; [|reflexivity].
    cbn [flat_map]. unfold Spec.viewAt, Array_length. rewrite app_nil_r.
    replace (1 <=? p) with (0 <? p) by (destruct (Z.ltb_spec 0 p), (Z.leb_spec 1 p); lia || reflexivity).
    destruct ((0 <? p) && (p <=? Z.of_nat (List.length avail))) eqn:G;
      [|reflexivity].
    apply andb_prop in G as [G1 G2]. apply Z.ltb_lt in G1.
    now rewrite Array_get_nth_error by lia.
Qed.

Lemma viewAt_in_range (p : Z) :
  1 <= p <= Z.of_nat (List.length avail) ->
  exists v, Spec.viewAt avail p = [Some v]
            /\ nth_error avail (Z.to_nat (p - 1)) = Some v.
Proof.
  intros [Hlo Hhi]. unfold Spec.viewAt.
  destruct (Z.leb_spec 1 p); [|lia].
  destruct (Z.leb_spec p (Z.of_nat (List.length avail))); [|lia].
  cbn [andb].
  destruct (nth_error avail (Z.to_nat (p - 1))) as [v|] eqn:E.
  - now exists v.
  - apply nth_error_None in E. lia.
Qed.

Lemma viewAt_out_of_range (p : Z) :
  p < 1 \/ Z.of_nat (List.length avail) < p -> Spec.viewAt avail p = [].
Proof.
  intros H. unfold Spec.viewAt.
  destruct (Z.leb_spec 1 p), (Z.leb_spec p (Z.of_nat (List.length avail)));
    cbn; try reflexivity; lia.
Qed.

(** The archive keeps the non-empty groups, in order. *)
Lemma rangeFiles_groups (parts : list string) :
  forall i : Z,
    map snd (rangeFiles avail i parts)
    = filter (fun g => negb (Nat.eqb (List.length g) 0))
             (map (partIndices avail) parts).
Proof.
  induction parts as [|part rest IH]; intros i; [reflexivity|].
  cbn [rangeFiles map filter].
  destruct (partIndices avail part) as [|x g]; cbn.
  - apply IH.
  - now rewrite IH.
Qed.

End RangesFacts.

(** ** The other branches *)

Lemma seq_groups_from (pre rest : list Z) :
  map (fun i => [Split.Array_get (pre ++ rest) (Z.of_nat i)])
      (seq (List.length pre) (List.length rest))
  = map (fun v => [Some v]) rest.
Proof.
  revert pre. induction rest as [|v rest IH]; intros pre; [reflexivity|].
  cbn [List.length seq map].
  rewrite Array_get_app_middle. f_equal.
  specialize (IH (pre ++ [v])%list).
  rewrite <- app_assoc, length_app, Nat.add_1_r in IH. exact IH.
Qed.

Lemma eachFiles_groups (avail : list Z) :
  map snd (Split.eachFiles avail) = map (fun v => [Some v]) avail.
Proof.
  unfold Split.eachFiles. rewrite map_map. cbn [snd].
  exact (seq_groups_from [] avail).
Qed.

Lemma eachFiles_numbers (avail : list Z) :
  map fst (Split.eachFiles avail)
  = map (fun i => Z.of_nat i + 1) (seq 0 (List.length avail)).
Proof.
  unfold Split.eachFiles. now rewrite map_map.
Qed.

Section PositionFacts.

Import Split.

Variable avail : list Z.

Lemma selectedFiles_groups (selectedPages : list Z) :
  map snd (selectedFiles avail selectedPages)
  = map (fun v => [Some v]) (Spec.atPositions avail selectedPages).
Proof.
  induction selectedPages as [|idx rest IH]; [reflexivity|].
  cbn [selectedFiles Spec.atPositions flat_map]. unfold Array_length.
  destruct ((0 <=? idx) && (idx <? Z.of_nat (List.length avail))) eqn:G.
  - apply andb_prop in G as [G1 G2].
    apply Z.leb_le in G1. apply Z.ltb_lt in G2.
    destruct (Array_get_in_range avail idx) as (v & Hv & _);
      [unfold Array_length; lia|].
    cbn [map snd]. rewrite Hv.
    rewrite Array_get_nth_error in Hv by assumption. rewrite Hv.
    cbn. f_equal. exact IH.
  - exact IH.
Qed.

Lemma indicesToExtract_atPositions (selectedPages : list Z) :
  indicesToExtract avail selectedPages
  = map Some (Spec.atPositions avail selectedPages).
Proof.
  unfold indicesToExtract.
  induction selectedPages as [|idx rest IH]; [reflexivity|].
  cbn [filter Spec.atPositions flat_map]. unfold Array_length.
  destruct ((0 <=? idx) && (idx <? Z.of_nat (List.length avail))) eqn:G.
  - apply andb_prop in G as [G1 G2].
    apply Z.leb_le in G1. apply Z.ltb_lt in G2.
    destruct (Array_get_in_range avail idx) as (v & Hv & _);
      [unfold Array_length; lia|].
    cbn [map]. rewrite Hv.
    rewrite Array_get_nth_error in Hv by assumption. rewrite Hv.
    cbn. f_equal. exact IH.
  - exact IH.
Qed.

Lemma atPositions_In (positions : list Z) (v : Z) :
  In v (Spec.atPositions avail positions) -> In v avail.
Proof.
  unfold Spec.atPositions. rewrite in_flat_map.
  intros (i & _ & Hv).
  destruct ((0 <=? i) && (i <? Z.of_nat (List.length avail))); [|contradiction].
  destruct (nth_error avail (Z.to_nat i)) as [w|] eqn:E; [|contradiction].
  destruct Hv as [<-|[]]. eapply nth_error_In; eassumption.
Qed.

End PositionFacts.

Lemma keepLoop_complement (selectedPages rest : list Z) :
  forall pre : list Z,
    Split.keepLoop (pre ++ rest) selectedPages
                   (List.length pre) (List.length rest)
    = map Some (Spec.complement selectedPages
                                (Z.of_nat (List.length pre)) rest).
Proof.
  induction rest as [|v rest IH]; intros pre; [reflexivity|].
  cbn [List.length Split.keepLoop Spec.complement].
  unfold Split.Array_includes.
  rewrite Array_get_app_middle.
  specialize (IH (pre ++ [v])%list).
  rewrite <- app_assoc, length_app, Nat.add_1_r in IH. cbn [app] in IH.
  replace (Z.of_nat (List.length pre) + 1)
    with (Z.of_nat (S (List.length pre))) by lia.
  destruct (existsb (Z.eqb (Z.of_nat (List.length pre))) selectedPages);
    cbn [negb map]; now rewrite IH.
Qed.

Lemma pageIndicesToKeep_complement (avail selectedPages : list Z) :
  Split.pageIndicesToKeep avail selectedPages
  = map Some (Spec.complement selectedPages 0 avail).
Proof.
  exact (keepLoop_complement selectedPages avail []).
Qed.

Lemma complement_In (excluded view : list Z) (v : Z) :
  forall i, In v (Spec.complement excluded i view) -> In v view.
Proof.
  induction view as [|w view IH]; intros i; [exact (fun H => H)|].
  cbn [Spec.complement].
  destruct (existsb (Z.eqb i) excluded); cbn [In]; intros H.
  - right. eapply IH; eassumption.
  - destruct H as [H|H]; [now left | right; eapply IH; eassumption].
Qed.

(** Only membership in the excluded positions matters, not their order
    or multiplicity. *)
Lemma complement_ext (excluded excluded' view : list Z) :
  (forall i, In i excluded <-> In i excluded') ->
  forall i, Spec.complement excluded i view
            = Spec.complement excluded' i view.
Proof.
  intros Hext. induction view as [|w view IH]; intros i; [reflexivity|].
  cbn [Spec.complement].
  assert (E : existsb (Z.eqb i) excluded = existsb (Z.eqb i) excluded').
  { apply eq_true_iff_eq. rewrite !existsb_exists.
    split; intros (k & Hk & Hik); apply Z.eqb_eq in Hik; subst k;
      exists i; (split; [now apply Hext | apply Z.eqb_refl]). }
  rewrite E. now rewrite IH.
Qed.

(** A position kept by the complement is the view element found there. *)
Lemma complement_nth (excluded view : list Z) :
  forall (i : Z) (k : nat) (v : Z),
    nth_error view k = Some v ->
    existsb (Z.eqb (i + Z.of_nat k)) excluded = false ->
    In v (Spec.complement excluded i view).
Proof.
  induction view as [|w view IH]; intros i k v Hk Hex.
  - destruct k; discriminate.
  - cbn [Spec.complement]. destruct k as [|k].
    + cbn in Hk. injection Hk as ->.
      replace (i + Z.of_nat 0) with i in Hex by lia.
      rewrite Hex. now left.
    + cbn in Hk.
      assert (In v (Spec.complement excluded (i + 1) view)) as Hin.
      { apply (IH (i + 1) k v Hk).
        now replace (i + 1 + Z.of_nat k) with (i + Z.of_nat (S k)) by lia. }
      destruct (existsb (Z.eqb i) excluded); [exact Hin | now right].
Qed.

(** ** The page-selection claims *)

(** C8. In each mode, on a view of size N, there are exactly N groups,
    each the singleton of the view's index at that position, in view
    order; without a supplied view the view is [0, ..., pageCount-1]. *)
Theorem each_mode_singletons :
  forall (ranges : option string) (selectedPages : option (list Z))
         (view : list Z) (pageCount : nat),
    Split.groups (Split.splitPdf Split.Each ranges selectedPages
                                 (Some view) pageCount)
    = map (fun v => [Some v]) view
    /\ List.length (Split.groups (Split.splitPdf Split.Each ranges
                                    selectedPages (Some view) pageCount))
       = List.length view
    /\ Split.groups (Split.splitPdf Split.Each ranges selectedPages
                                    None pageCount)
       = map (fun i => [Some (Z.of_nat i)]) (seq 0 pageCount).
Proof.
  intros ranges selectedPages view pageCount.
  cbn [Split.splitPdf Split.availableIndices Split.groups].
  rewrite !eachFiles_groups.
  split; [reflexivity|].
  split; [apply length_map | now rewrite map_map].
Qed.

(** C6. In delete mode the result is one group: the view elements at the
    positions that are not excluded, in ascending position order, whatever
    the order in which the excluded positions are supplied; excluding
    {1,3} on a view of size 5 gives [[v0;v2;v4]]. *)
Theorem delete_keeps_complement :
  forall (ranges : option string) (excluded excluded' view : list Z)
         (pageCount : nat),
    (forall i, In i excluded <-> In i excluded') ->
    Split.splitPdf Split.Delete ranges (Some excluded) (Some view) pageCount
    = Split.Pdf (map Some (Spec.complement excluded 0 view))
    /\ Split.splitPdf Split.Delete ranges (Some excluded')
                      (Some view) pageCount
       = Split.splitPdf Split.Delete ranges (Some excluded)
                        (Some view) pageCount
    /\ (forall (k : nat) (v : Z),
           nth_error view k = Some v ->
           ~ In (Z.of_nat k) excluded ->
           In v (Spec.complement excluded 0 view))
    /\ (forall v0 v1 v2 v3 v4 : Z,
           let view5 := [v0; v1; v2; v3; v4] in
           Split.splitPdf Split.Delete ranges (Some [1; 3])
                          (Some view5) pageCount
           = Split.Pdf [Some v0; Some v2; Some v4]
           /\ Split.splitPdf Split.Delete ranges (Some [3; 1])
                             (Some view5) pageCount
              = Split.Pdf [Some v0; Some v2; Some v4]).
Proof.
  intros ranges excluded excluded' view pageCount Hsame.
  cbn [Split.splitPdf Split.availableIndices].
  rewrite !pageIndicesToKeep_complement.
  split; [reflexivity|].
  split; [now rewrite (complement_ext excluded excluded' view Hsame)|].
  split.
  { intros k v Hk Hnot. apply (complement_nth excluded view 0 k v Hk).
    destruct (existsb (Z.eqb (0 + Z.of_nat k)) excluded) eqn:E;
      [|reflexivity].
    apply existsb_exists in E as (j & Hj & Hjk).
    apply Z.eqb_eq in Hjk. exfalso. apply Hnot.
    now replace (Z.of_nat k) with j by lia. }
  intros v0 v1 v2 v3 v4. split; reflexivity.
Qed.

Lemma delete_keeps_complement_witness :
  (forall i, In i [1; 3] <-> In i [3; 1])
  /\ Split.splitPdf Split.Delete None (Some [3; 1])
                    (Some [10; 11; 12; 13; 14]) 5
     = Split.splitPdf Split.Delete None (Some [1; 3])
                      (Some [10; 11; 12; 13; 14]) 5.
Proof.
  assert (H : forall i, In i [1; 3] <-> In i [3; 1]) by (cbn; tauto).
  split; [exact H|].
  exact (proj1 (proj2 (delete_keeps_complement
                         None [1; 3] [3; 1] [10; 11; 12; 13; 14] 5%nat H))).
Defined.

Lemma tokenGroup_In (avail : list Z) (token : string) (i : option Z) :
  In i (Spec.tokenGroup avail token) -> exists v, i = Some v /\ In v avail.
Proof.
  unfold Spec.tokenGroup. rewrite in_flat_map. intros (p & _ & Hi).
  unfold Spec.viewAt in Hi.
  destruct ((1 <=? p) && (p <=? Z.of_nat (List.length avail))) eqn:G;
    [|contradiction].
  apply andb_prop in G as [G1 G2].
  apply Z.leb_le in G1. apply Z.leb_le in G2.
  destruct Hi as [<-|[]].
  destruct (nth_error avail (Z.to_nat (p - 1))) as [v|] eqn:E.
  - exists v. split; [reflexivity | eapply nth_error_In; eassumption].
  - apply nth_error_None in E. lia.
Qed.

(** C5. Whatever the mode and the input, every index of every group of
    the outcome is an element of the view ([availableIndices]: the
    supplied source indices, or all pages when none are supplied); in
    particular no [undefined] is ever handed to [copyPages]. *)
Theorem plan_within_view :
  forall (mode : Split.Mode) (ranges : option string)
         (selectedPages sourceIndices : option (list Z)) (pageCount : nat)
         (g : list (option Z)) (i : option Z),
    In g (Split.groups (Split.splitPdf mode ranges selectedPages
                                       sourceIndices pageCount)) ->
    In i g ->
    exists v, i = Some v
              /\ In v (Split.availableIndices sourceIndices pageCount).
Proof.
  intros mode ranges selectedPages sourceIndices pageCount g i.
  unfold Split.splitPdf.
  set (avail := Split.availableIndices sourceIndices pageCount).
  destruct mode.
  - cbn [Split.groups]. rewrite eachFiles_groups, in_map_iff.
    intros (v & <- & Hv) [<-|[]]. now exists v.
  - destruct ranges as [[|c r]|]; cbn [Split.groups In]; try contradiction.
    rewrite rangeFiles_groups. intros Hg%filter_In.
    destruct Hg as [Hg _]. apply in_map_iff in Hg as (part & <- & _).
    rewrite partIndices_tokenGroup. apply tokenGroup_In.
  - destruct selectedPages as [[|p ps]|]; cbn [Split.groups In];
      try contradiction.
    rewrite selectedFiles_groups, in_map_iff.
    intros (v & <- & Hv) [<-|[]]. exists v. split; [reflexivity|].
    eapply atPositions_In; eassumption.
  - destruct selectedPages as [sel|]; cbn [Split.groups In];
      [|contradiction].
    rewrite pageIndicesToKeep_complement.
    intros [<-|[]] Hi. apply in_map_iff in Hi as (v & <- & Hv).
    exists v. split; [reflexivity|]. eapply complement_In; eassumption.
  - destruct selectedPages as [[|p ps]|]; cbn [Split.groups In];
      try contradiction.
    rewrite indicesToExtract_atPositions.
    intros [<-|[]] Hi. apply in_map_iff in Hi as (v & <- & Hv).
    exists v. split; [reflexivity|]. eapply atPositions_In; eassumption.
Qed.

Lemma plan_within_view_witness :
  exists v, Some 13 = Some v
            /\ In v (Split.availableIndices (Some [10; 11; 12; 13; 14]) 7).
Proof.
  apply (plan_within_view Split.Extract None (Some [3; 0])
                          (Some [10; 11; 12; 13; 14]) 7%nat
                          [Some 13; Some 10] (Some 13)).
  - cbn. left. reflexivity.
  - cbn. left. reflexivity.
Defined.




(** ** Watermark placement *)

Section Placement.

Import Watermark.

Local Open Scope R_scope.

Lemma textOrigin_formula
      (width height xRatio yRatio rotationAngle textWidth textHeight : R) :
  textOrigin width height xRatio yRatio rotationAngle textWidth textHeight
  = (width * xRatio
     - fst (Spec.rotatedHalfExtent rotationAngle textWidth textHeight),
     height * (1 - yRatio)
     - snd (Spec.rotatedHalfExtent rotationAngle textWidth textHeight)).
Proof. reflexivity. Qed.

Lemma rotatedHalfExtent_0 (textWidth textHeight : R) :
  Spec.rotatedHalfExtent 0 textWidth textHeight = (textWidth / 2, textHeight / 2).
Proof.
  unfold Spec.rotatedHalfExtent.
  replace (0 * PI / 180) with 0 by field.
  rewrite cos_0, sin_0. f_equal; field.
Qed.

Variable widthOfTextAtSize : string -> R -> R.
Variable heightAtSize : R -> R.

Lemma drawTexts_opacity_size (text : string)
      (textSize opacity xRatio yRatio rotationAngle : R) (total : nat)
      (pages : list (R * R)) :
  forall (idx : nat) (d : Draw),
    In d (drawTexts widthOfTextAtSize heightAtSize text textSize opacity
                    xRatio yRatio rotationAngle total idx pages) ->
    Spec.drawOpacity d = opacity /\ Spec.drawSize d = Some textSize.
Proof.
  induction pages as [|[width height] rest IH]; intros idx d;
    [contradiction|].
  cbn [drawTexts].
  destruct (textOrigin _ _ _ _ _ _ _) as [drawX drawY].
  intros [<-|Hin]; [now split | eapply IH; eassumption].
Qed.

Lemma orElse_zero (d : R) : orElse (Some 0) d = d.
Proof.
  unfold orElse. destruct (Req_dec_T 0 0) as [_|H]; [reflexivity|].
  now contradiction H.
Qed.

End Placement.

(** C2. The placement calculation takes the centre at
    [(w*ax, h*(1-ay))], turns the half-extent vector [(tw/2, th/2)]
    counterclockwise by the angle and subtracts it from the centre; the
    text branch draws each page's text at that origin.  For a 600 by 800
    page, anchor (0.5, 0.5), no rotation and extents 100 by 20 the origin
    is (250, 390). *)
Theorem placement_origin :
  forall (w h ax ay angle tw th : R),
    (let theta := angle * PI / 180 in
     let rvX := tw / 2 * cos theta - th / 2 * sin theta in
     let rvY := tw / 2 * sin theta + th / 2 * cos theta in
     Watermark.textOrigin w h ax ay angle tw th
     = (w * ax - rvX, h * (1 - ay) - rvY))%R
    /\ Watermark.textOrigin 600 800 (1 / 2) (1 / 2) 0 100 20
       = (250, 390)%R
    /\ (forall (widthOfTextAtSize : string -> R -> R)
               (heightAtSize : R -> R)
               (c : ascii) (t : string) (size opacity : R),
           Watermark.addWatermark widthOfTextAtSize heightAtSize
             {| Watermark.text := Some (String c t);
                Watermark.size := Some size;
                Watermark.opacity := Some opacity;
                Watermark.file := false;
                Watermark.x := Some ax;
                Watermark.y := Some ay;
                Watermark.rotation := Some angle |}
             [(w, h)]
           = let text := Watermark.currentText (String c t) 0 1 in
             let textSize := Watermark.orElse (Some size) 50 in
             let origin :=
               Watermark.textOrigin w h ax ay angle
                 (widthOfTextAtSize text textSize) (heightAtSize textSize) in
             [Watermark.DrawText text (fst origin) (snd origin) textSize
                (Watermark.orElse (Some opacity) (1 / 2)) angle]).
Proof.
  intros w h ax ay angle tw th.
  split; [reflexivity|].
  split.
  - rewrite textOrigin_formula, rotatedHalfExtent_0. cbn [fst snd].
    f_equal; field.
  - intros wOf hOf c t size opacity.
    cbn [Watermark.addWatermark Watermark.file Watermark.text Watermark.x
         Watermark.y Watermark.rotation Watermark.size Watermark.opacity
         Watermark.nullish List.length Watermark.drawTexts].
    destruct (Watermark.textOrigin _ _ _ _ _ _ _) as [drawX drawY].
    reflexivity.
Qed.

(** ** Placeholder expansion *)

Section Replace.

(** A matcher that can only match at an opening brace. *)
Variable matchAt : string -> option (nat * string).
Hypothesis matchAt_brace :
  forall c s, Spec.notBrace c = true -> matchAt (String c s) = None.

Lemma replaceFrom_skip (p rest : string) :
  JS.replaceFrom matchAt (String.length p) (p ++ rest)
  = JS.replaceFrom matchAt 0 rest.
Proof. induction p as [|c p IH]; cbn; [reflexivity | exact IH]. Qed.

Lemma replace_match (c : ascii) (p rest by_ : string) :
  matchAt (String c (p ++ rest)) = Some (S (String.length p), by_) ->
  JS.replace matchAt (String c (p ++ rest))
  = by_ ++ JS.replace matchAt rest.
Proof.
  intros H. unfold JS.replace. cbn [JS.replaceFrom]. rewrite H.
  cbn [Nat.pred]. now rewrite replaceFrom_skip.
Qed.

Lemma replace_plain (p rest : string) :
  Spec.allChars Spec.notBrace p = true ->
  JS.replace matchAt (p ++ rest) = p ++ JS.replace matchAt rest.
Proof.
  unfold JS.replace.
  induction p as [|c p IH]; cbn; [reflexivity|].
  intros [Hc Hp]%andb_prop.
  rewrite (matchAt_brace c (p ++ rest) Hc). now rewrite IH.
Qed.

Lemma replace_no_match (c : ascii) (p rest : string) :
  matchAt (String c (p ++ rest)) = None ->
  Spec.allChars Spec.notBrace p = true ->
  JS.replace matchAt (String c (p ++ rest))
  = String c (p ++ JS.replace matchAt rest).
Proof.
  intros H Hp. unfold JS.replace. cbn [JS.replaceFrom]. rewrite H.
  f_equal. now apply replace_plain.
Qed.

End Replace.

Lemma literal_brace (pat' by_ : string) (c : ascii) (s : string) :
  Spec.notBrace c = true ->
  JS.literal (String "{"%char pat') by_ (String c s) = None.
Proof.
  unfold Spec.notBrace, JS.literal. cbn [JS.dropPrefix].
  rewrite (Ascii.eqb_sym "{"%char c).
  destruct (Ascii.eqb c "{"%char); [discriminate | reflexivity].
Qed.

Lemma pagePadded_brace (page : nat) (c : ascii) (s : string) :
  Spec.notBrace c = true -> Watermark.pagePadded page (String c s) = None.
Proof.
  unfold Spec.notBrace, Watermark.pagePadded. cbn [JS.dropPrefix].
  rewrite (Ascii.eqb_sym "{"%char c).
  destruct (Ascii.eqb c "{"%char); [discriminate | reflexivity].
Qed.

Lemma widthTail_notBrace (width : string) :
  Spec.allChars JS.isDigit width = true ->
  Spec.allChars Spec.notBrace ("page:" ++ width ++ "}") = true.
Proof.
  intros H. cbn [append Spec.allChars]. rewrite allChars_app.
  now rewrite digits_notBrace.
Qed.

(** The first pass turns every [{page}] into the page number and leaves
    the rest as it is. *)
Lemma pass_page (value : string) (ps : list Spec.Piece) :
  forallb Spec.wellFormed ps = true ->
  forall f : Spec.Piece -> Spec.Piece,
    (forall p, Spec.pieceText (f p)
               = match p with Spec.Page => value | _ => Spec.pieceText p end) ->
    JS.replace (JS.literal "{page}" value) (Spec.textOf ps)
    = Spec.textOf (map f ps).
Proof.
  intros Hwf f Hf.
  induction ps as [|p ps IH]; [reflexivity|].
  cbn [forallb] in Hwf. apply andb_prop in Hwf as [Hp Hps].
  specialize (IH Hps).
  cbn [Spec.textOf fold_right map]. fold (Spec.textOf ps).
  fold (Spec.textOf (map f ps)). rewrite Hf, <- IH.
  destruct p as [s| | |width]; cbn [Spec.pieceText Spec.wellFormed] in *.
  - apply replace_plain; [apply literal_brace | exact Hp].
  - apply (replace_match (JS.literal "{page}" value) "{"%char "page}"
             (Spec.textOf ps) value).
    reflexivity.
  - apply (replace_no_match (JS.literal "{page}" value) (literal_brace _ _)
             "{"%char "total}" (Spec.textOf ps)); reflexivity.
  - apply andb_prop in Hp as [Hd _].
    replace (("{page:" ++ width ++ "}") ++ Spec.textOf ps)
      with (String "{"%char (("page:" ++ width ++ "}") ++ Spec.textOf ps))
      by reflexivity.
    replace (("{page:" ++ width ++ "}")
             ++ JS.replace (JS.literal "{page}" value) (Spec.textOf ps))
      with (String "{"%char
              (("page:" ++ width ++ "}")
               ++ JS.replace (JS.literal "{page}" value) (Spec.textOf ps)))
      by reflexivity.
    apply (replace_no_match (JS.literal "{page}" value) (literal_brace _ _)).
    + reflexivity.
    + now apply widthTail_notBrace.
Qed.

(** The second pass turns every [{total}] into the page count. *)
Lemma pass_total (value : string) (ps : list Spec.Piece) :
  forallb Spec.wellFormed ps = true ->
  forall f : Spec.Piece -> Spec.Piece,
    (forall p, Spec.pieceText (f p)
               = match p with Spec.Total => value | _ => Spec.pieceText p end) ->
    JS.replace (JS.literal "{total}" value) (Spec.textOf ps)
    = Spec.textOf (map f ps).
Proof.
  intros Hwf f Hf.
  induction ps as [|p ps IH]; [reflexivity|].
  cbn [forallb] in Hwf. apply andb_prop in Hwf as [Hp Hps].
  specialize (IH Hps).
  cbn [Spec.textOf fold_right map]. fold (Spec.textOf ps).
  fold (Spec.textOf (map f ps)). rewrite Hf, <- IH.
  destruct p as [s| | |width]; cbn [Spec.pieceText Spec.wellFormed] in *.
  - apply replace_plain; [apply literal_brace | exact Hp].
  - apply (replace_no_match (JS.literal "{total}" value) (literal_brace _ _)
             "{"%char "page}" (Spec.textOf ps)); reflexivity.
  - apply (replace_match (JS.literal "{total}" value) "{"%char "total}"
             (Spec.textOf ps) value).
    reflexivity.
  - apply andb_prop in Hp as [Hd _].
    replace (("{page:" ++ width ++ "}") ++ Spec.textOf ps)
      with (String "{"%char (("page:" ++ width ++ "}") ++ Spec.textOf ps))
      by reflexivity.
    replace (("{page:" ++ width ++ "}")
             ++ JS.replace (JS.literal "{total}" value) (Spec.textOf ps))
      with (String "{"%char
              (("page:" ++ width ++ "}")
               ++ JS.replace (JS.literal "{total}" value) (Spec.textOf ps)))
      by reflexivity.
    apply (replace_no_match (JS.literal "{total}" value) (literal_brace _ _)).
    + reflexivity.
    + now apply widthTail_notBrace.
Qed.

Lemma pagePadded_match (page : nat) (width rest : string) :
  Spec.allChars JS.isDigit width = true ->
  width <> EmptyString ->
  Watermark.pagePadded page
    (String "{"%char (("page:" ++ width ++ "}") ++ rest))
  = Some (S (String.length ("page:" ++ width ++ "}")),
          JS.padStart (JS.parseInt width) (JS.toString page)).
Proof.
  intros Hd Hne. unfold Watermark.pagePadded.
  rewrite !string_app_assoc. cbn [append JS.dropPrefix Ascii.eqb Bool.eqb].
  rewrite spanDigits_run by assumption.
  destruct width as [|c width]; [congruence|].
  do 2 f_equal. cbn [String.length].
  rewrite string_length_app. cbn [String.length]. lia.
Qed.

(** The third pass turns every [{page:NN}] into the padded page number. *)
Lemma pass_pagePad (page : nat) (ps : list Spec.Piece) :
  forallb Spec.wellFormed ps = true ->
  JS.replace (Watermark.pagePadded page) (Spec.textOf ps)
  = Spec.textOf (map (Spec.afterPagePad page) ps).
Proof.
  intros Hwf.
  induction ps as [|p ps IH]; [reflexivity|].
  cbn [forallb] in Hwf. apply andb_prop in Hwf as [Hp Hps].
  specialize (IH Hps).
  cbn [Spec.textOf fold_right map].
  fold (Spec.textOf ps). fold (Spec.textOf (map (Spec.afterPagePad page) ps)).
  rewrite <- IH.
  destruct p as [s| | |width];
    cbn [Spec.pieceText Spec.wellFormed Spec.afterPagePad] in *.
  - apply replace_plain; [apply pagePadded_brace | exact Hp].
  - apply (replace_no_match (Watermark.pagePadded page)
             (pagePadded_brace page) "{"%char "page}" (Spec.textOf ps));
      reflexivity.
  - apply (replace_no_match (Watermark.pagePadded page)
             (pagePadded_brace page) "{"%char "total}" (Spec.textOf ps));
      reflexivity.
  - apply andb_prop in Hp as [Hd Hne].
    replace (("{page:" ++ width ++ "}") ++ Spec.textOf ps)
      with (String "{"%char (("page:" ++ width ++ "}") ++ Spec.textOf ps))
      by reflexivity.
    apply replace_match. apply pagePadded_match; [exact Hd|].
    intros ->. discriminate.
Qed.

Lemma wellFormed_afterPage (page : nat) (ps : list Spec.Piece) :
  forallb Spec.wellFormed ps = true ->
  forallb Spec.wellFormed (map (Spec.afterPage page) ps) = true.
Proof.
  induction ps as [|p ps IH]; [reflexivity|].
  cbn [forallb map]. intros [Hp Hps]%andb_prop.
  rewrite (IH Hps), andb_true_r.
  destruct p; cbn [Spec.afterPage Spec.wellFormed] in *; try exact Hp.
  apply digits_notBrace, toString_digits.
Qed.

Lemma wellFormed_afterTotal (total : nat) (ps : list Spec.Piece) :
  forallb Spec.wellFormed ps = true ->
  forallb Spec.wellFormed (map (Spec.afterTotal total) ps) = true.
Proof.
  induction ps as [|p ps IH]; [reflexivity|].
  cbn [forallb map]. intros [Hp Hps]%andb_prop.
  rewrite (IH Hps), andb_true_r.
  destruct p; cbn [Spec.afterTotal Spec.wellFormed] in *; try exact Hp.
  apply digits_notBrace, toString_digits.
Qed.

Lemma passes_value (page total : nat) (ps : list Spec.Piece) :
  Spec.textOf (map (Spec.afterPagePad page)
                   (map (Spec.afterTotal total)
                        (map (Spec.afterPage page) ps)))
  = Spec.valueOf page total ps.
Proof.
  induction ps as [|p ps IH]; [reflexivity|].
  cbn [map Spec.textOf Spec.valueOf fold_right].
  fold (Spec.valueOf page total ps). rewrite <- IH.
  now destruct p.
Qed.





(** * Beyond the claims *)

(** ** More on the ranges branch *)

Lemma skipn_nth_error_cons {A : Type} (l : list A) :
  forall (k : nat) (x : A),
    nth_error l k = Some x -> skipn k l = x :: skipn (S k) l.
Proof.
  induction l as [|y l IH]; intros [|k] x H; try discriminate.
  - cbn in H. now injection H as ->.
  - cbn in H. cbn [skipn]. now apply IH.
Qed.

(** The positions [j, ..., j+n-1], [j >= 1], select the [n] view elements
    that follow the first [j-1], as far as the view goes. *)
Lemma viewAt_interval_slice (view : list Z) (n : nat) :
  forall j : nat,
    flat_map (Spec.viewAt view)
             (Spec.interval (Z.of_nat (S j)) (Z.of_nat (S j) + Z.of_nat n - 1))
    = map Some (firstn n (skipn j view)).
Proof.
  induction n as [|n IH]; intros j.
  - rewrite interval_empty by lia. reflexivity.
  - rewrite interval_unfold by lia. cbn [flat_map].
    replace (Z.of_nat (S j) + 1) with (Z.of_nat (S (S j))) by lia.
    replace (Z.of_nat (S j) + Z.of_nat (S n) - 1)
      with (Z.of_nat (S (S j)) + Z.of_nat n - 1) by lia.
    rewrite IH.
    destruct (nth_error view j) as [x|] eqn:E.
    + destruct (viewAt_in_range view (Z.of_nat (S j))) as (v & Hv & Hn).
      { assert (j < List.length view)%nat
          by (apply nth_error_Some; congruence).
        lia. }
      replace (Z.to_nat (Z.of_nat (S j) - 1)) with j in Hn by lia.
      rewrite Hv, (skipn_nth_error_cons view j x E).
      cbn. congruence.
    + apply nth_error_None in E.
      rewrite viewAt_out_of_range by lia.
      now rewrite (skipn_all2 view (n := j)), (skipn_all2 view (n := S j)),
        !firstn_nil by lia.
Qed.

Lemma rangeFiles_In (avail : list Z) (parts : list string) :
  forall (i n : Z) (g : list (option Z)),
    In (n, g) (Split.rangeFiles avail i parts)
    <-> exists (k : nat) (part : string),
          nth_error parts k = Some part
          /\ n = i + Z.of_nat k + 1
          /\ g = Split.partIndices avail part
          /\ g <> [].
Proof.
  induction parts as [|part rest IH]; intros i n g.
  - cbn. split; [contradiction|]. intros ([|k] & p & H & _); discriminate.
  - cbn [Split.rangeFiles].
    assert (Hrest :
              In (n, g) (Split.rangeFiles avail (i + 1) rest)
              <-> exists (k : nat) (p : string),
                    nth_error (part :: rest) (S k) = Some p
                    /\ n = i + Z.of_nat (S k) + 1
                    /\ g = Split.partIndices avail p /\ g <> []).
    { rewrite IH. split; intros (k & p & H1 & H2 & H3);
        exists k, p; (split; [exact H1|split; [lia|exact H3]]). }
    destruct (Split.partIndices avail part) as [|x l] eqn:E; cbn [List.length].
    + cbn. rewrite Hrest. split.
      * intros (k & p & H); now exists (S k), p.
      * intros ([|k] & p & H1 & H2 & H3 & H4).
        -- cbn in H1. injection H1 as <-. congruence.
        -- now exists k, p.
    + change (0 <? Z.of_nat (S (List.length l))) with true. cbn [In].
      rewrite Hrest. split.
      * intros [H|(k & p & H)].
        -- injection H as <- <-. exists 0%nat, part.
           repeat split; [lia | now symmetry | discriminate].
        -- now exists (S k), p.
      * intros ([|k] & p & H1 & H2 & H3 & H4).
        -- cbn in H1. injection H1 as <-. left.
           f_equal; [lia | congruence].
        -- right. now exists k, p.
Qed.

(** ** More on the selection branches *)

Lemma concat_singletons {A B : Type} (f : A -> B) (l : list A) :
  List.concat (map (fun v => [f v]) l) = map f l.
Proof. induction l as [|x l IH]; cbn; [reflexivity | now rewrite IH]. Qed.

Lemma selectedFiles_numbers (avail selectedPages : list Z) :
  map fst (Split.selectedFiles avail selectedPages)
  = map (fun idx => idx + 1)
        (filter (fun idx => (0 <=? idx) && (idx <? Split.Array_length avail))
                selectedPages).
Proof.
  induction selectedPages as [|idx rest IH]; [reflexivity|].
  cbn [Split.selectedFiles filter].
  destruct ((0 <=? idx) && (idx <? Split.Array_length avail));
    cbn [map fst]; now rewrite IH.
Qed.

Lemma atPositions_out_of_range (view positions : list Z) :
  (forall i, In i positions ->
             i < 0 \/ Z.of_nat (List.length view) <= i) ->
  Spec.atPositions view positions = [].
Proof.
  induction positions as [|i rest IH]; intros H; [reflexivity|].
  cbn [Spec.atPositions flat_map].
  fold (Spec.atPositions view rest).
  rewrite IH by (intros k Hk; apply H; now right).
  destruct (H i (or_introl eq_refl)) as [Hi|Hi].
  - destruct (Z.leb_spec 0 i); [lia | reflexivity].
  - destruct (Z.ltb_spec i (Z.of_nat (List.length view))); [lia|].
    now rewrite andb_false_r.
Qed.

(** The complement depends on the excluded positions only through the
    positions the view has. *)
Lemma complement_ext_in_view (excluded excluded' view : list Z) :
  forall i,
    (forall k, i <= k < i + Z.of_nat (List.length view) ->
               (In k excluded <-> In k excluded')) ->
    Spec.complement excluded i view = Spec.complement excluded' i view.
Proof.
  induction view as [|w view IH]; intros i Hext; [reflexivity|].
  cbn [Spec.complement List.length] in *.
  assert (E : existsb (Z.eqb i) excluded = existsb (Z.eqb i) excluded').
  { apply eq_true_iff_eq. rewrite !existsb_exists.
    split; intros (k & Hk & Hik); apply Z.eqb_eq in Hik; subst k;
      exists i; (split; [apply Hext; [lia | assumption] | apply Z.eqb_refl]). }
  rewrite E, (IH (i + 1)); [reflexivity|].
  intros k Hk. apply Hext. lia.
Qed.

Lemma complement_nil (view : list Z) :
  forall i, Spec.complement [] i view = view.
Proof.
  induction view as [|w view IH]; intros i; [reflexivity|].
  cbn. now rewrite IH.
Qed.

Lemma complement_all (excluded view : list Z) :
  forall i,
    (forall k, i <= k < i + Z.of_nat (List.length view) -> In k excluded) ->
    Spec.complement excluded i view = [].
Proof.
  induction view as [|w view IH]; intros i H; [reflexivity|].
  cbn [Spec.complement List.length] in *.
  assert (E : existsb (Z.eqb i) excluded = true).
  { apply existsb_exists. exists i. split; [apply H; lia | apply Z.eqb_refl]. }
  rewrite E. apply IH. intros k Hk. apply H. lia.
Qed.

(** ** Text after a number *)

Lemma digitValue_decimal (c : ascii) :
  JS.isDigit c = false ->
  match JS.digitValue c with
  | Some d => (d <? 10) = false
  | None => True
  end.
Proof.
  destruct c as [[|] [|] [|] [|] [|] [|] [|] [|]]; intros H;
    vm_compute in H; try discriminate H; vm_compute; exact I || reflexivity.
Qed.

Lemma digitsPrefix_stop (c : ascii) (rest : string) (acc : option Z) :
  JS.isDigit c = false ->
  JS.digitsPrefix 10 (String c rest) acc = acc.
Proof.
  intros H. apply digitValue_decimal in H. cbn [JS.digitsPrefix].
  destruct (JS.digitValue c); [now rewrite H | reflexivity].
Qed.

Lemma digitsPrefix_uint_stop (c : ascii) (rest : string) (d : Decimal.uint) :
  JS.isDigit c = false ->
  forall acc : nat,
    JS.digitsPrefix 10 (NilEmpty.string_of_uint d ++ String c rest)
                    (Some (Z.of_nat acc))
    = Some (Z.of_nat (Nat.of_uint_acc d acc)).
Proof.
  intros Hc.
  induction d as [|d IH|d IH|d IH|d IH|d IH|d IH|d IH|d IH|d IH|d IH];
    intros acc; [now apply digitsPrefix_stop|..];
    cbn [NilEmpty.string_of_uint Nat.of_uint_acc append]; rewrite <- IH;
    cbn [JS.digitsPrefix]; digit_step;
    do 2 f_equal; rewrite ?Nat.tail_mul_spec; lia.
Qed.

Lemma digitsPrefix_toString_stop (c : ascii) (rest : string) (n : nat) :
  JS.isDigit c = false ->
  JS.digitsPrefix 10 (JS.toString n ++ String c rest) (Some 0)
  = Some (Z.of_nat n).
Proof.
  intros Hc. rewrite <- (Unsigned.of_to n) at 2.
  unfold JS.toString, NilZero.string_of_uint, Nat.of_uint.
  destruct (Nat.to_uint n) eqn:E;
    [exact (digitsPrefix_stop c rest (Some 0) Hc)|..];
    rewrite <- E; exact (digitsPrefix_uint_stop c rest _ Hc 0%nat).
Qed.

Lemma option_map_mul_1 (o : option Z) : option_map (Z.mul 1) o = o.
Proof. now destruct o as [[| |]|]. Qed.

(** A string that starts with a digit, and not with [0x] or [0X], is read
    in radix 10 from its first character. *)
Lemma parseInt_digit_led (c1 : ascii) (r : string) :
  JS.isDigit c1 = true ->
  match r with
  | String c2 _ => c2 <> "x"%char /\ c2 <> "X"%char
  | EmptyString => True
  end ->
  JS.parseInt (String c1 r) = JS.digitsPrefix 10 (String c1 r) (Some 0).
Proof.
  intros Hc Hr.
  digit_cases c1 Hc;
    try (unfold JS.parseInt; cbn -[Z.mul Z.add];
         now destruct (JS.digitsPrefix 10 r _) as [[| |]|]).
  change (JS.digitsPrefix 10 (String "0"%char r) (Some 0))
    with (JS.digitsPrefix 10 r (Some 0)).
  destruct r as [|c2 r]; [reflexivity|].
  destruct Hr as [Hx HX].
  destruct c2 as [[|] [|] [|] [|] [|] [|] [|] [|]];
    try (now contradiction Hx); try (now contradiction HX);
    unfold JS.parseInt;
    cbn [JS.trimStart JS.isWhiteSpace N_of_ascii N.eqb Pos.eqb orb
         N_of_digits N.add N.mul Pos.add Pos.mul Pos.succ];
    apply option_map_mul_1.
Qed.

Lemma notDigit_not_x (c : ascii) :
  JS.isDigit c = true -> c <> "x"%char /\ c <> "X"%char.
Proof. intros H. split; intros ->; discriminate H. Qed.

(** [parseInt] reads a decimal numeral followed by any text that does not
    start with a digit, [x] or [X] as the numeral alone. *)
Lemma parseInt_toString_stop (n : nat) (c : ascii) (rest : string) :
  JS.isDigit c = false ->
  c <> "x"%char -> c <> "X"%char ->
  JS.parseInt (JS.toString n ++ String c rest) = Some (Z.of_nat n).
Proof.
  intros Hd Hx HX.
  rewrite <- (digitsPrefix_toString_stop c rest n Hd).
  pose proof (toString_digits n) as Hn.
  pose proof (toString_nonempty n) as Hne.
  destruct (JS.toString n) as [|c1 r]; [congruence|].
  cbn [Spec.allChars] in Hn. apply andb_prop in Hn as [H1 Hr].
  cbn [append]. apply parseInt_digit_led; [exact H1|].
  destruct r as [|c2 r]; cbn [append]; [now split|].
  cbn [Spec.allChars] in Hr. apply andb_prop in Hr as [H2 _].
  now apply notDigit_not_x.
Qed.

(** X7. A token without a dash that starts with a decimal numeral is read
    as that numeral, whatever follows it (other than a digit, or [x]/[X]
    which would announce a hexadecimal numeral): ["3abc"] selects page 3
    and ["2.7"] page 2. *)
Theorem token_read_up_to_first_non_digit :
  forall (view : list Z) (n : nat) (c : ascii) (rest : string),
    JS.isDigit c = false ->
    c <> "x"%char -> c <> "X"%char ->
    JS.includes "-"%char (String c rest) = false ->
    Split.partIndices view (JS.toString n ++ String c rest)
    = Spec.viewAt view (Z.of_nat n).
Proof.
  intros view n c rest Hd Hx HX Hdash.
  rewrite partIndices_tokenGroup.
  unfold Spec.tokenGroup, Spec.tokenPositions.
  assert (E : JS.includes "-"%char (JS.toString n ++ String c rest) = false).
  { pose proof (digits_without_dash _ (toString_digits n)) as Hn.
    induction (JS.toString n) as [|c1 r IH]; [exact Hdash|].
    cbn in Hn |- *. apply orb_false_elim in Hn as [H1 H2].
    now rewrite H1, IH. }
  rewrite E, parseInt_toString_stop by assumption.
  cbn [flat_map]. apply app_nil_r.
Qed.

Lemma token_read_up_to_first_non_digit_witness :
  JS.isDigit "a"%char = false
  /\ "a"%char <> "x"%char /\ "a"%char <> "X"%char
  /\ JS.includes "-"%char "abc" = false
  /\ Split.partIndices [10; 11; 12; 13; 14] (JS.toString 3 ++ "abc")
     = Spec.viewAt [10; 11; 12; 13; 14] (Z.of_nat 3).
Proof.
  assert (H1 : JS.isDigit "a"%char = false) by reflexivity.
  assert (H2 : "a"%char <> "x"%char) by discriminate.
  assert (H3 : "a"%char <> "X"%char) by discriminate.
  assert (H4 : JS.includes "-"%char "abc" = false) by reflexivity.
  repeat (split; [assumption|]).
  exact (token_read_up_to_first_non_digit [10; 11; 12; 13; 14] 3%nat
           "a"%char "bc" H1 H2 H3 H4).
Defined.

(** ** The split panel *)

Lemma nth_error_iota (n k : nat) :
  (k < n)%nat -> nth_error (map Z.of_nat (seq 0 n)) k = Some (Z.of_nat k).
Proof.
  intros H. rewrite nth_error_map, nth_error_seq.
  destruct (Nat.ltb_spec k n); [reflexivity | lia].
Qed.

(** Reading the view of all pages at in-range positions gives back the
    positions. *)
Lemma atPositions_iota (n : nat) (positions : list Z) :
  Spec.atPositions (map Z.of_nat (seq 0 n)) positions
  = filter (fun i => (0 <=? i) && (i <? Z.of_nat n)) positions.
Proof.
  induction positions as [|i rest IH]; [reflexivity|].
  cbn [Spec.atPositions flat_map filter].
  fold (Spec.atPositions (map Z.of_nat (seq 0 n)) rest).
  rewrite IH, length_map, length_seq.
  destruct ((0 <=? i) && (i <? Z.of_nat n)) eqn:G; [|reflexivity].
  apply andb_prop in G as [G1 G2].
  apply Z.leb_le in G1. apply Z.ltb_lt in G2.
  rewrite (nth_error_iota n (Z.to_nat i)) by lia.
  cbn [app]. f_equal. lia.
Qed.

Lemma filter_all_true {A : Type} (f : A -> bool) (l : list A) :
  Forall (fun x => f x = true) l -> filter f l = l.
Proof.
  induction 1 as [|x l Hx _ IH]; [reflexivity|].
  cbn. now rewrite Hx, IH.
Qed.

Lemma originalIndices_in_range (pageCount : nat)
      (pages : list SplitTool.PageData) :
  validPages pageCount pages ->
  filter (fun i => (0 <=? i) && (i <? Z.of_nat pageCount))
         (SplitTool.originalIndices pages)
  = SplitTool.originalIndices pages.
Proof.
  intros H. apply filter_all_true. unfold SplitTool.originalIndices.
  apply Forall_map. eapply Forall_impl; [|exact H].
  cbn. intros p Hp.
  destruct (Z.leb_spec 0 (Z.of_nat (SplitTool.originalIndex p))); [|lia].
  destruct (Z.ltb_spec (Z.of_nat (SplitTool.originalIndex p))
                       (Z.of_nat pageCount)); [reflexivity | lia].
Qed.

Lemma validPages_filter (pageCount : nat) (f : SplitTool.PageData -> bool)
      (pages : list SplitTool.PageData) :
  validPages pageCount pages -> validPages pageCount (filter f pages).
Proof.
  unfold validPages. rewrite !Forall_forall.
  intros H p Hp. apply filter_In in Hp as [Hp _]. now apply H.
Qed.

(** The document [splitPdf] makes in extract mode from original indices
    when no view is passed. *)
Lemma extract_of_original_indices (pageCount : nat)
      (pages : list SplitTool.PageData) :
  validPages pageCount pages ->
  pages <> [] ->
  Split.splitPdf Split.Extract None (Some (SplitTool.originalIndices pages))
                 None pageCount
  = Split.Pdf (map Some (SplitTool.originalIndices pages)).
Proof.
  intros Hvalid Hne.
  pose proof (originalIndices_in_range pageCount pages Hvalid) as Hin.
  destruct (SplitTool.originalIndices pages) as [|i l] eqn:E.
  - destruct pages; [congruence | discriminate E].
  - cbn [Split.splitPdf Split.availableIndices].
    now rewrite indicesToExtract_atPositions, atPositions_iota, Hin.
Qed.

(** X8. Saving in delete mode writes one document holding the pages still
    in the view, by their original index and in view order; when every
    page has been removed the call of [splitPdf] throws. *)
Theorem save_keeps_the_view :
  forall (ranges : string) (selectedIds : list string)
         (pages : list SplitTool.PageData) (pageCount : nat),
    validPages pageCount pages ->
    (pages <> [] ->
     SplitTool.handleSplit Split.Delete ranges selectedIds pages pageCount
     = Split.Pdf (map Some (SplitTool.originalIndices pages)))
    /\ SplitTool.handleSplit Split.Delete ranges selectedIds [] pageCount
       = Split.Throw.
Proof.
  intros ranges selectedIds pages pageCount Hvalid.
  split; [|reflexivity].
  intros Hne. now apply extract_of_original_indices.
Qed.

Lemma save_keeps_the_view_witness :
  let pages := [ {| SplitTool.id := "b"; SplitTool.originalIndex := 2 |};
                 {| SplitTool.id := "a"; SplitTool.originalIndex := 0 |} ] in
  validPages 3 pages
  /\ pages <> []
  /\ SplitTool.handleSplit Split.Delete "" [] pages 3
     = Split.Pdf [Some 2; Some 0].
Proof.
  intros pages.
  assert (Hv : validPages 3 pages)
    by (repeat constructor; cbn; lia).
  assert (Hne : pages <> []) by discriminate.
  split; [exact Hv|]. split; [exact Hne|].
  exact (proj1 (save_keeps_the_view "" [] pages 3%nat Hv) Hne).
Defined.

Lemma includesId_In (a : list string) (x : string) :
  SplitTool.includesId a x = true <-> In x a.
Proof.
  unfold SplitTool.includesId. rewrite existsb_exists. split.
  - intros (y & Hy & E). apply String.eqb_eq in E. now subst.
  - intros H. exists x. split; [exact H | apply String.eqb_refl].
Qed.

Lemma includesId_ext (a b : list string) :
  (forall x, In x a <-> In x b) ->
  forall x, SplitTool.includesId a x = SplitTool.includesId b x.
Proof.
  intros H x. apply eq_true_iff_eq. rewrite !includesId_In. apply H.
Qed.



(** ** Thumbnails *)

Section ThumbnailFacts.

Variable renders : nat -> bool.
Variable now : nat -> nat.

Lemma thumbnailLoop_In (fuel : nat) :
  forall (i : nat) (p : SplitTool.PageData),
    In p (SplitTool.thumbnailLoop renders now i fuel)
    <-> (i <= SplitTool.originalIndex p < i + fuel)%nat
        /\ renders (SplitTool.originalIndex p) = true
        /\ SplitTool.id p
           = "page-" ++ JS.toString (SplitTool.originalIndex p) ++ "-"
             ++ JS.toString (now (SplitTool.originalIndex p)).
Proof.
  induction fuel as [|fuel IH]; intros i p.
  - cbn. split; [contradiction | lia].
  - cbn [SplitTool.thumbnailLoop].
    assert (Hhead :
              forall q : SplitTool.PageData,
                q = {| SplitTool.id :=
                         "page-" ++ JS.toString i ++ "-"
                         ++ JS.toString (now i);
                       SplitTool.originalIndex := i |}
                <-> SplitTool.originalIndex q = i
                    /\ SplitTool.id q
                       = "page-" ++ JS.toString (SplitTool.originalIndex q)
                         ++ "-"
                         ++ JS.toString (now (SplitTool.originalIndex q))).
    { intros [qid qi]. cbn. split.
      - intros H. injection H as -> ->. now split.
      - intros [-> ->]. reflexivity. }
    destruct (renders i) eqn:R; cbn [In]; rewrite IH.
    + split.
      * intros [H|H].
        -- symmetry in H. apply Hhead in H as [Hi Hid].
           rewrite Hi. repeat split; try lia; congruence.
        -- repeat split; try lia; apply H.
      * intros (Hr & Hren & Hid).
        destruct (Nat.eq_dec (SplitTool.originalIndex p) i) as [E|E].
        -- left. symmetry. apply Hhead. now split.
        -- right. repeat split; try lia; assumption.
    + split.
      * intros H. repeat split; try lia; apply H.
      * intros (Hr & Hren & Hid).
        destruct (Nat.eq_dec (SplitTool.originalIndex p) i) as [E|E];
          [congruence|].
        repeat split; try lia; assumption.
Qed.

Lemma thumbnailLoop_all (fuel : nat) :
  (forall i, renders i = true) ->
  forall i : nat,
    map SplitTool.originalIndex (SplitTool.thumbnailLoop renders now i fuel)
    = seq i fuel.
Proof.
  intros Hall. induction fuel as [|fuel IH]; intros i; [reflexivity|].
  cbn [SplitTool.thumbnailLoop seq]. rewrite Hall. cbn [map].
  now rewrite IH.
Qed.

Lemma digits_dash_prefix (a b r r' : string) :
  Spec.allChars JS.isDigit a = true ->
  Spec.allChars JS.isDigit b = true ->
  a ++ String "-"%char r = b ++ String "-"%char r' ->
  a = b.
Proof.
  revert b. induction a as [|x a IH]; intros [|y b] Ha Hb E;
    cbn [append Spec.allChars] in *.
  - reflexivity.
  - injection E as <- _. apply andb_prop in Hb as [Hy _]. discriminate Hy.
  - injection E as -> _. apply andb_prop in Ha as [Hx _]. discriminate Hx.
  - injection E as -> E.
    apply andb_prop in Ha as [_ Ha]. apply andb_prop in Hb as [_ Hb].
    f_equal. now apply IH.
Qed.

Lemma toString_inj (m n : nat) : JS.toString m = JS.toString n -> m = n.
Proof.
  intros E. pose proof (parseInt_toString m) as Hm.
  rewrite E, parseInt_toString in Hm. injection Hm as Hm. lia.
Qed.

Lemma thumbnailLoop_NoDup (fuel : nat) :
  forall i : nat,
    NoDup (map SplitTool.id (SplitTool.thumbnailLoop renders now i fuel)).
Proof.
  induction fuel as [|fuel IH]; intros i; [constructor|].
  cbn [SplitTool.thumbnailLoop].
  destruct (renders i); [|apply IH].
  cbn [map SplitTool.id]. constructor; [|apply IH].
  intros Hin. apply in_map_iff in Hin as (q & Hid & Hq).
  apply thumbnailLoop_In in Hq as (Hr & _ & Hq).
  rewrite Hq in Hid. cbn [append] in Hid.
  injection Hid as Hid.
  apply digits_dash_prefix in Hid; try apply toString_digits.
  apply toString_inj in Hid. lia.
Qed.

End ThumbnailFacts.



Lemma originalIndices_seq (pages : list SplitTool.PageData) (l : list nat) :
  map SplitTool.originalIndex pages = l ->
  SplitTool.originalIndices pages = map Z.of_nat l.
Proof.
  intros <-. unfold SplitTool.originalIndices. now rewrite map_map.
Qed.

Lemma thumbnails_fifty_helper (now : nat -> nat) (pageCount : nat) :
  validPages pageCount (SplitTool.loadPages (fun _ => true) now pageCount)
  /\ SplitTool.originalIndices
       (SplitTool.loadPages (fun _ => true) now pageCount)
     = map Z.of_nat (seq 0 (Nat.min pageCount 50)).
Proof.
  unfold SplitTool.loadPages. split.
  - apply Forall_forall. intros p Hp. apply thumbnailLoop_In in Hp. lia.
  - apply originalIndices_seq. now apply thumbnailLoop_all.
Qed.

(** X11. On a freshly loaded file whose thumbnails all render, splitting
    each page writes [min pageCount 50] documents, one for each of the
    first pages, and saving in delete mode writes only those pages: a
    document of more than 50 pages loses the pages after the 50th. *)
Theorem fresh_view_is_capped :
  forall (now : nat -> nat) (ranges : string) (selectedIds : list string)
         (pageCount : nat),
    (0 < pageCount)%nat ->
    let pages := SplitTool.loadPages (fun _ => true) now pageCount in
    Split.groups (SplitTool.handleSplit Split.Each ranges selectedIds
                                        pages pageCount)
    = map (fun i => [Some (Z.of_nat i)]) (seq 0 (Nat.min pageCount 50))
    /\ SplitTool.handleSplit Split.Delete ranges selectedIds pages pageCount
       = Split.Pdf (map (fun i => Some (Z.of_nat i))
                        (seq 0 (Nat.min pageCount 50))).
Proof.
  intros now ranges selectedIds pageCount Hpos pages.
  destruct (thumbnails_fifty_helper now pageCount) as (Hvalid & Hidx).
  fold pages in Hvalid, Hidx.
  split.
  - cbn [SplitTool.handleSplit Split.splitPdf Split.availableIndices
         Split.groups].
    rewrite eachFiles_groups, Hidx. now rewrite map_map.
  - unfold SplitTool.handleSplit.
    rewrite extract_of_original_indices; [now rewrite Hidx, map_map|exact Hvalid|].
    intros E. rewrite E in Hidx. cbn in Hidx.
    destruct (Nat.min pageCount 50) eqn:M; [lia | discriminate Hidx].
Qed.

Lemma fresh_view_is_capped_witness :
  (0 < 60)%nat
  /\ SplitTool.handleSplit Split.Delete "" []
       (SplitTool.loadPages (fun _ => true) (fun i => 1000 + i)%nat 60) 60
     = Split.Pdf (map (fun i => Some (Z.of_nat i)) (seq 0 (Nat.min 60 50))).
Proof.
  assert (H : (0 < 60)%nat) by lia.
  split; [exact H|].
  exact (proj2 (fresh_view_is_capped (fun i => 1000 + i)%nat "" [] 60%nat H)).
Defined.

(** ** Selecting and removing pages *)

Lemma removePages_pages (pages : list SplitTool.PageData)
      (selectedIds : list string) :
  fst (SplitTool.handleRemovePages pages selectedIds)
  = filter (fun p => negb (SplitTool.includesId selectedIds (SplitTool.id p)))
           pages.
Proof.
  destruct selectedIds as [|x l]; [|reflexivity].
  cbn [SplitTool.handleRemovePages fst]. symmetry.
  apply filter_all_true. now apply Forall_forall.
Qed.

(** X12. Removing the selected pages keeps the others in view order and
    clears the selection, and a save that follows writes exactly the pages
    that were not selected. *)
Theorem remove_then_save :
  forall (ranges : string) (selectedIds : list string)
         (pages : list SplitTool.PageData) (pageCount : nat),
    validPages pageCount pages ->
    let kept :=
      filter (fun p => negb (SplitTool.includesId selectedIds
                                                  (SplitTool.id p))) pages in
    let '(pages', selectedIds') :=
      SplitTool.handleRemovePages pages selectedIds in
    pages' = kept
    /\ selectedIds' = []
    /\ validPages pageCount pages'
    /\ (forall p, In p pages' <->
                  In p pages /\ ~ In (SplitTool.id p) selectedIds)
    /\ (kept <> [] ->
        SplitTool.handleSplit Split.Delete ranges selectedIds' pages' pageCount
        = Split.Pdf (map Some (SplitTool.originalIndices kept))).
Proof.
  intros ranges selectedIds pages pageCount Hvalid kept.
  pose proof (removePages_pages pages selectedIds) as Hp.
  destruct (SplitTool.handleRemovePages pages selectedIds)
    as [pages' selectedIds'] eqn:E.
  cbn [fst] in Hp. fold kept in Hp. subst pages'.
  split; [reflexivity|]. split.
  { destruct selectedIds; cbn in E; congruence. }
  split; [now apply validPages_filter|]. split.
  - intros p. unfold kept. rewrite filter_In, negb_true_iff.
    rewrite <- includesId_In.
    destruct (SplitTool.includesId selectedIds (SplitTool.id p));
      intuition congruence.
  - intros Hne. unfold SplitTool.handleSplit.
    apply extract_of_original_indices; [|exact Hne].
    now apply validPages_filter.
Qed.

Lemma remove_then_save_witness :
  let pages := [ {| SplitTool.id := "a"; SplitTool.originalIndex := 0 |};
                 {| SplitTool.id := "b"; SplitTool.originalIndex := 1 |};
                 {| SplitTool.id := "c"; SplitTool.originalIndex := 2 |} ] in
  validPages 3 pages
  /\ SplitTool.handleSplit Split.Delete "" []
       (fst (SplitTool.handleRemovePages pages ["b"])) 3
     = Split.Pdf [Some 0; Some 2].
Proof.
  intros pages.
  assert (Hv : validPages 3 pages) by (repeat constructor; cbn; lia).
  split; [exact Hv|].
  pose proof (remove_then_save "" ["b"] pages 3%nat Hv) as H.
  cbv zeta in H.
  change (SplitTool.handleRemovePages pages ["b"])
    with ([ {| SplitTool.id := "a"; SplitTool.originalIndex := 0%nat |};
            {| SplitTool.id := "c"; SplitTool.originalIndex := 2%nat |} ],
          @nil string) in H.
  destruct H as (_ & _ & _ & _ & H).
  apply H. discriminate.
Defined.

Lemma filter_neq_notIn (prev : list string) (x : string) :
  ~ In x prev -> filter (fun p => negb (String.eqb p x)) prev = prev.
Proof.
  intros H. apply filter_all_true. apply Forall_forall. intros y Hy.
  destruct (String.eqb_spec y x) as [->|_]; [contradiction | reflexivity].
Qed.

(** X13. Clicking a thumbnail flips the selection of its id and of no
    other: the id is dropped if it was selected, and added at the end if
    it was not.  The selection stays free of repetitions, and clicking an
    unselected page twice restores the selection. *)
Theorem toggle_flips_one_id :
  forall (prev : list string) (x y : string),
    (In y (SplitTool.togglePageSelection prev x)
     <-> (y <> x /\ In y prev) \/ (y = x /\ ~ In x prev))
    /\ (NoDup prev -> NoDup (SplitTool.togglePageSelection prev x))
    /\ (~ In x prev ->
        SplitTool.togglePageSelection
          (SplitTool.togglePageSelection prev x) x = prev).
Proof.
  intros prev x y. unfold SplitTool.togglePageSelection at 1 2.
  destruct (SplitTool.includesId prev x) eqn:E.
  - apply includesId_In in E. split; [|split].
    + rewrite filter_In, negb_true_iff. split.
      * intros [Hy Hne]. left. split; [|exact Hy].
        intros ->. now rewrite String.eqb_refl in Hne.
      * intros [[Hne Hy]|[_ Hn]]; [|contradiction].
        split; [exact Hy|]. now apply String.eqb_neq.
    + intros H. now apply NoDup_filter.
    + intros Hn. contradiction.
  - assert (Hn : ~ In x prev).
    { intros H. apply includesId_In in H. congruence. }
    split; [|split].
    + rewrite in_app_iff. cbn [In]. split.
      * intros [Hy|[<-|[]]].
        -- left. split; [|exact Hy]. intros ->. contradiction.
        -- right. now split.
      * intros [[_ Hy]|[-> _]]; [now left | right; now left].
    + intros H. apply NoDup_app; [exact H | repeat constructor; intros [] |].
      intros z Hz [<-|[]]. contradiction.
    + intros _. unfold SplitTool.togglePageSelection. rewrite E.
      assert (E' : SplitTool.includesId (prev ++ [x]) x = true).
      { apply includesId_In, in_app_iff. right. now left. }
      rewrite E', filter_app, (filter_neq_notIn prev x Hn).
      cbn [filter]. rewrite String.eqb_refl. cbn. apply app_nil_r.
Qed.

Lemma toggle_flips_one_id_witness :
  NoDup ["a"; "b"]
  /\ ~ In "c" ["a"; "b"]
  /\ NoDup (SplitTool.togglePageSelection ["a"; "b"] "c")
  /\ SplitTool.togglePageSelection
       (SplitTool.togglePageSelection ["a"; "b"] "c") "c" = ["a"; "b"].
Proof.
  assert (H1 : NoDup ["a"; "b"]).
  { repeat constructor; cbn; intuition discriminate. }
  assert (H2 : ~ In "c" ["a"; "b"]) by (cbn; intuition discriminate).
  split; [exact H1|]. split; [exact H2|].
  destruct (toggle_flips_one_id ["a"; "b"] "c" "c") as (_ & Hn & Ht).
  split; [exact (Hn H1) | exact (Ht H2)].
Defined.

Lemma originalIndices_In (pages : list SplitTool.PageData) (v : Z) :
  In v (SplitTool.originalIndices pages)
  <-> exists p, In p pages /\ v = Z.of_nat (SplitTool.originalIndex p).
Proof.
  unfold SplitTool.originalIndices. rewrite in_map_iff.
  split; intros (p & H1 & H2); exists p; now split.
Qed.

Lemma atPositions_iota_In (n : nat) (positions : list Z) (v : Z) :
  In v (Spec.atPositions (map Z.of_nat (seq 0 n)) positions) ->
  In v positions.
Proof. rewrite atPositions_iota, filter_In. now intros [H _]. Qed.

(** X14. Whatever the mode, the range string and the selection, every page
    of every document the panel asks for is a page of the current view,
    named by its original index: a page removed from the view cannot come
    back through a range or a stale selection. *)
Theorem panel_output_within_view :
  forall (mode : Split.Mode) (ranges : string) (selectedIds : list string)
         (pages : list SplitTool.PageData) (pageCount : nat)
         (g : list (option Z)) (i : option Z),
    In g (Split.groups (SplitTool.handleSplit mode ranges selectedIds
                                              pages pageCount)) ->
    In i g ->
    exists p, In p pages /\ i = Some (Z.of_nat (SplitTool.originalIndex p)).
Proof.
  intros mode ranges selectedIds pages pageCount g i.
  assert (Hview : forall v, In v (SplitTool.originalIndices pages) ->
            exists p, In p pages
                      /\ Some v = Some (Z.of_nat (SplitTool.originalIndex p))).
  { intros v Hv. apply originalIndices_In in Hv as (p & Hp & ->).
    now exists p. }
  assert (Hsub : forall v,
             In v (SplitTool.originalIndices
                     (filter (fun p => SplitTool.includesId selectedIds
                                         (SplitTool.id p)) pages)) ->
             In v (SplitTool.originalIndices pages)).
  { intros v Hv. apply originalIndices_In in Hv as (p & Hp & ->).
    apply filter_In in Hp as [Hp _]. apply originalIndices_In. now exists p. }
  unfold SplitTool.handleSplit, Split.splitPdf.
  destruct mode; cbn [Split.availableIndices].
  - cbn [Split.groups]. rewrite eachFiles_groups, in_map_iff.
    intros (v & <- & Hv) [<-|[]]. now apply Hview.
  - destruct ranges as [|c r]; cbn [Split.groups In]; [contradiction|].
    rewrite rangeFiles_groups. intros Hg%filter_In.
    destruct Hg as [Hg _]. apply in_map_iff in Hg as (part & <- & _).
    rewrite partIndices_tokenGroup. intros Hi.
    apply tokenGroup_In in Hi as (v & -> & Hv). now apply Hview.
  - destruct (SplitTool.originalIndices (filter _ pages)) as [|q qs] eqn:E;
      cbn [Split.groups In]; [contradiction|].
    rewrite selectedFiles_groups, in_map_iff.
    intros (v & <- & Hv) [<-|[]].
    apply atPositions_iota_In in Hv.
    now apply Hview, Hsub.
  - destruct (SplitTool.originalIndices pages) as [|q qs] eqn:E;
      cbn [Split.groups In]; [contradiction|].
    rewrite indicesToExtract_atPositions.
    intros [<-|[]] Hi. apply in_map_iff in Hi as (v & <- & Hv).
    apply atPositions_iota_In in Hv. now apply Hview.
  - destruct (SplitTool.originalIndices (filter _ pages)) as [|q qs] eqn:E;
      cbn [Split.groups In]; [contradiction|].
    rewrite indicesToExtract_atPositions.
    intros [<-|[]] Hi. apply in_map_iff in Hi as (v & <- & Hv).
    apply atPositions_iota_In in Hv.
    now apply Hview, Hsub.
Qed.

Lemma panel_output_within_view_witness :
  let pages := [ {| SplitTool.id := "a"; SplitTool.originalIndex := 0 |};
                 {| SplitTool.id := "c"; SplitTool.originalIndex := 2 |} ] in
  exists p, In p pages /\ Some 2 = Some (Z.of_nat (SplitTool.originalIndex p)).
Proof.
  intros pages.
  apply (panel_output_within_view Split.Ranges "2-9" [] pages 3%nat
                                  [Some 2] (Some 2)).
  - cbn. left. reflexivity.
  - cbn. left. reflexivity.
Defined.

Section CropFacts.

Local Open Scope R_scope.

Lemma setMargin_nonNegative (side : CropTool.Side) (value : R)
      (m : PdfOps.Margins) :
  nonNegative m -> nonNegative (CropTool.setMargin side value m).
Proof.
  unfold nonNegative. intros (Hl & Hr & Ht & Hb).
  pose proof (Rmax_l 0 value) as Hv.
  destruct side; cbn; lra.
Qed.

Lemma afterInputs_nonNegative (events : list (CropTool.Side * R)) :
  nonNegative (CropTool.afterInputs events).
Proof.
  unfold CropTool.afterInputs.
  assert (H : forall m, nonNegative m ->
                        nonNegative
                          (fold_left
                             (fun margins '(side, value) =>
                                CropTool.setMargin side value margins)
                             events m)).
  { induction events as [|[side value] events IH]; intros m Hm; [exact Hm|].
    cbn [fold_left]. apply IH. now apply setMargin_nonNegative. }
  apply H. unfold nonNegative, CropTool.noMargins. cbn. lra.
Qed.

End CropFacts.

(** ** The watermark panel *)

Section ClampFacts.

Local Open Scope R_scope.

Lemma clamp_range (x : R) : 0 <= WatermarkTool.clamp x <= 1.
Proof.
  unfold WatermarkTool.clamp, Rmax, Rmin.
  destruct (Rle_dec 1 x), (Rle_dec 0 _); lra.
Qed.

Lemma clamp_inside (x : R) : 0 <= x <= 1 -> WatermarkTool.clamp x = x.
Proof.
  intros H. unfold WatermarkTool.clamp, Rmax, Rmin.
  destruct (Rle_dec 1 x), (Rle_dec 0 _); lra.
Qed.

End ClampFacts.

(** X18. While dragging, the watermark position is kept in the unit
    square: inside the preview it is the pointer's offset as a fraction of
    the preview size, outside it is the nearest point of the border; the
    centre [addWatermark] derives from it therefore lies on the page. *)
Theorem drag_position_on_page :
  forall (clientX clientY left top width height pageWidth pageHeight : R),
    (0 < width -> 0 < height -> 0 <= pageWidth -> 0 <= pageHeight ->
     let '(x, y) :=
       WatermarkTool.handleMouseMove clientX clientY left top width height in
     0 <= x <= 1 /\ 0 <= y <= 1
     /\ (left <= clientX <= left + width -> x = (clientX - left) / width)
     /\ (top <= clientY <= top + height -> y = (clientY - top) / height)
     /\ (clientX <= left -> x = 0)
     /\ (left + width <= clientX -> x = 1)
     /\ 0 <= pageWidth * x <= pageWidth
     /\ 0 <= pageHeight * (1 - y) <= pageHeight)%R.
Proof.
  intros clientX clientY left top width height pageWidth pageHeight
         Hw Hh Hpw Hph.
  unfold WatermarkTool.handleMouseMove.
  pose proof (clamp_range ((clientX - left) / width)) as Hx.
  pose proof (clamp_range ((clientY - top) / height)) as Hy.
  split; [exact Hx|]. split; [exact Hy|].
  assert (Hdiv : forall a b, (0 < b -> 0 <= a <= b -> 0 <= a / b <= 1)%R).
  { intros a b Hb [Ha1 Ha2]. split.
    - apply Rmult_le_pos; [exact Ha1|].
      apply Rlt_le, Rinv_0_lt_compat, Hb.
    - apply (Rmult_le_reg_r b); [exact Hb|].
      unfold Rdiv. rewrite Rmult_assoc, Rinv_l by lra. lra. }
  split; [intros H; apply clamp_inside, Hdiv; lra|].
  split; [intros H; apply clamp_inside, Hdiv; lra|].
  split.
  { intros H. unfold WatermarkTool.clamp.
    assert ((clientX - left) / width <= 0)%R.
    { unfold Rdiv. rewrite <- (Rmult_0_l (/ width)).
      apply Rmult_le_compat_r; [apply Rlt_le, Rinv_0_lt_compat, Hw | lra]. }
    unfold Rmax, Rmin.
    destruct (Rle_dec 1 _), (Rle_dec 0 _); lra. }
  split.
  { intros H. unfold WatermarkTool.clamp.
    assert (1 <= (clientX - left) / width)%R.
    { apply (Rmult_le_reg_r width); [exact Hw|].
      unfold Rdiv. rewrite Rmult_assoc, Rinv_l by lra. lra. }
    unfold Rmax, Rmin.
    destruct (Rle_dec 1 _), (Rle_dec 0 _); lra. }
  split; nra.
Qed.

Lemma drag_position_on_page_witness :
  (0 < 300 /\ 0 < 400 /\ 0 <= 600 /\ 0 <= 800
   /\ 10 <= 85 <= 10 + 300
   /\ fst (WatermarkTool.handleMouseMove 85 500 10 20 300 400)
      = (85 - 10) / 300)%R.
Proof.
  assert (H1 : (0 < 300)%R) by lra. assert (H2 : (0 < 400)%R) by lra.
  assert (H3 : (0 <= 600)%R) by lra. assert (H4 : (0 <= 800)%R) by lra.
  assert (H5 : (10 <= 85 <= 10 + 300)%R) by lra.
  repeat (split; [assumption|]).
  pose proof (drag_position_on_page 85 500 10 20 300 400 600 800
                                    H1 H2 H3 H4) as H.
  destruct (WatermarkTool.handleMouseMove 85 500 10 20 300 400) as [x y].
  destruct H as (_ & _ & Hx & _). exact (Hx H5).
Defined.

(** ** Colours *)

Lemma isHexDigit_cases (c : ascii) :
  isHexDigit c = true ->
  In c ["0"; "1"; "2"; "3"; "4"; "5"; "6"; "7"; "8"; "9";
        "a"; "b"; "c"; "d"; "e"; "f"; "A"; "B"; "C"; "D"; "E"; "F"]%char.
Proof.
  destruct c as [[|] [|] [|] [|] [|] [|] [|] [|]]; intros H;
    vm_compute in H; try discriminate H; cbn; tauto.
Qed.

Ltac hex_cases c H :=
  apply isHexDigit_cases in H;
  repeat (destruct H as [H|H]; [subst c|]); [..|contradiction H].

Lemma parseInt16_pair (a b : ascii) :
  isHexDigit a = true -> isHexDigit b = true ->
  WatermarkColor.parseInt16 (String a (String b EmptyString))
  = Some (16 * hexValue a + hexValue b).
Proof.
  intros Ha Hb.
  hex_cases a Ha; hex_cases b Hb; vm_compute; reflexivity.
Qed.

Lemma hexValue_range (c : ascii) :
  isHexDigit c = true -> 0 <= hexValue c <= 15.
Proof.
  intros H. hex_cases c H; vm_compute; split; discriminate.
Qed.

(** X23. A colour written as one character and six hexadecimal digits is
    read as the three channel values its digit pairs denote, each between
    0 and 255 (so that each colour component lies between 0 and 1), and
    anything after the sixth digit is ignored; no colour at all means
    black; a colour of fewer than six characters leaves the blue channel
    [NaN]. *)
Theorem color_channels_decoded :
  forall (c0 r1 r2 g1 g2 b1 b2 : ascii) (rest short : string),
    isHexDigit r1 = true -> isHexDigit r2 = true ->
    isHexDigit g1 = true -> isHexDigit g2 = true ->
    isHexDigit b1 = true -> isHexDigit b2 = true ->
    (String.length short <= 5)%nat ->
    WatermarkColor.colorChannels
      (Some (String c0 (String r1 (String r2 (String g1 (String g2
               (String b1 (String b2 rest))))))))
    = (Some (16 * hexValue r1 + hexValue r2),
       Some (16 * hexValue g1 + hexValue g2),
       Some (16 * hexValue b1 + hexValue b2))
    /\ 0 <= 16 * hexValue r1 + hexValue r2 <= 255
    /\ 0 <= 16 * hexValue g1 + hexValue g2 <= 255
    /\ 0 <= 16 * hexValue b1 + hexValue b2 <= 255
    /\ WatermarkColor.colorChannels None = (Some 0, Some 0, Some 0)
    /\ WatermarkColor.colorChannels (Some "") = (Some 0, Some 0, Some 0)
    /\ (snd (WatermarkColor.colorChannels (Some short)) = None
        \/ short = "").
Proof.
  intros c0 r1 r2 g1 g2 b1 b2 rest short Hr1 Hr2 Hg1 Hg2 Hb1 Hb2 Hshort.
  split.
  { cbn [WatermarkColor.colorChannels].
    unfold WatermarkColor.slice. cbn [Nat.sub String.substring].
    assert (E : String.substring 0 0 rest = EmptyString)
      by (now destruct rest).
    assert (E2 : forall s, String.substring 0 0 s = EmptyString)
      by (now intros []).
    rewrite !E2. now rewrite !parseInt16_pair. }
  pose proof (hexValue_range r1 Hr1). pose proof (hexValue_range r2 Hr2).
  pose proof (hexValue_range g1 Hg1). pose proof (hexValue_range g2 Hg2).
  pose proof (hexValue_range b1 Hb1). pose proof (hexValue_range b2 Hb2).
  do 3 (split; [lia|]).
  split; [reflexivity|]. split; [reflexivity|].
  destruct short as [|x0 [|x1 [|x2 [|x3 [|x4 [|x5 s]]]]]];
    [now right | left; reflexivity ..|cbn in Hshort; lia].
Qed.

Lemma color_channels_decoded_witness :
  isHexDigit "F"%char = true /\ isHexDigit "0"%char = true
  /\ (String.length "#FFF" <= 5)%nat
  /\ WatermarkColor.colorChannels (Some "#FF0000")
     = (Some 255, Some 0, Some 0)
  /\ (snd (WatermarkColor.colorChannels (Some "#FFF")) = None
      \/ "#FFF" = "").
Proof.
  assert (HF : isHexDigit "F"%char = true) by reflexivity.
  assert (H0 : isHexDigit "0"%char = true) by reflexivity.
  assert (Hs : (String.length "#FFF" <= 5)%nat) by (cbn; lia).
  split; [exact HF|]. split; [exact H0|]. split; [exact Hs|].
  destruct (color_channels_decoded "#"%char "F"%char "F"%char "0"%char
              "0"%char "0"%char "0"%char "" "#FFF" HF HF H0 H0 H0 H0 Hs)
    as (Hc & _ & _ & _ & _ & _ & Hshort).
  split; [exact Hc | exact Hshort].
Defined.

(** * Numbers as doubles, archive entries, saved documents *)

(** ** The ranges loop beyond 2^53 *)

Lemma roundDouble_small (v : Z) :
  v < Binary64.two53 -> Binary64.roundDouble v = v.
Proof.
  intros H. unfold Binary64.roundDouble.
  destruct (Z.ltb_spec v Binary64.two53); [reflexivity | lia].
Qed.

Lemma roundDouble_two53 : Binary64.roundDouble Binary64.two53 = Binary64.two53.
Proof. reflexivity. Qed.

Lemma roundDouble_two53_1 :
  Binary64.roundDouble (Binary64.two53 + 1) = Binary64.two53.
Proof. reflexivity. Qed.

(** Below 2^53 the counter is incremented exactly. *)
Lemma succDouble_small (j : Z) :
  j < Binary64.two53 -> Binary64.succDouble j = j + 1.
Proof.
  intros H. unfold Binary64.succDouble.
  destruct (Z.eq_dec (j + 1) Binary64.two53) as [E|E].
  - rewrite E. apply roundDouble_two53.
  - apply roundDouble_small. lia.
Qed.

(** At 2^53 it stays where it is. *)
Lemma succDouble_stalls (j : Z) :
  j <= Binary64.two53 -> Binary64.succDouble j <= Binary64.two53.
Proof.
  intros H. destruct (Z.eq_dec j Binary64.two53) as [->|E].
  - unfold Binary64.succDouble. rewrite roundDouble_two53_1. lia.
  - rewrite succDouble_small; lia.
Qed.

Lemma rangeLoop_stalls (avail : list Z) (fuel : nat) :
  forall (j : Z) (pageIndices : list (option Z)),
    j <= Binary64.two53 ->
    Binary64.rangeLoop fuel avail j Binary64.two53 pageIndices = None.
Proof.
  induction fuel as [|fuel IH]; intros j pageIndices Hj; [reflexivity|].
  cbn [Binary64.rangeLoop].
  destruct (Z.leb_spec j Binary64.two53); [|lia].
  apply IH. now apply succDouble_stalls.
Qed.

(** Below 2^53 the loop returns what the integer loop returns. *)
Lemma rangeLoop_agrees (avail : list Z) (fuel : nat) :
  forall (j end_ : Z) (pageIndices : list (option Z)),
    end_ < Binary64.two53 ->
    fuel = Z.to_nat (end_ - j + 1) ->
    Binary64.rangeLoop (S fuel) avail j end_ pageIndices
    = Some (Split.rangeLoop fuel avail j end_ pageIndices).
Proof.
  induction fuel as [|fuel IH]; intros j end_ pageIndices Hend Hfuel.
  - cbn. destruct (Z.leb_spec j end_); [lia | reflexivity].
  - cbn [Binary64.rangeLoop Split.rangeLoop].
    destruct (Z.leb_spec j end_) as [Hle|Hgt]; [|lia].
    rewrite succDouble_small by lia.
    apply IH; lia.
Qed.

Lemma partIndices_agrees (avail : list Z) (part : string) :
  safePart part = true ->
  exists fuel,
    Binary64.partIndices fuel avail part
    = Some (Split.partIndices avail part).
Proof.
  unfold safePart, Binary64.partIndices, Split.partIndices.
  destruct (JS.includes "-" part).
  - destruct (map JS.parseInt (JS.split "-" part))
      as [|[start|] [|[end_|] l]]; intros H; try (now exists 0%nat).
    apply andb_prop in H as [Hs He].
    apply Z.ltb_lt in Hs. apply Z.ltb_lt in He.
    exists (S (Z.to_nat (end_ - start + 1))).
    rewrite !roundDouble_small by assumption.
    now apply rangeLoop_agrees.
  - destruct (JS.parseInt part) as [pageNum|]; intros H; [|now exists 0%nat].
    apply Z.ltb_lt in H. exists 0%nat.
    now rewrite roundDouble_small.
Qed.

(** What the claim has the token [1-9007199254740992] resolve to: on a
    view of no more than 2^53 elements, the whole view. *)
Lemma tokenGroup_whole_view (view : list Z) :
  Z.of_nat (List.length view) <= Binary64.two53 ->
  Spec.tokenGroup view "1-9007199254740992" = map Some view.
Proof.
  intros Hlen.
  assert (Hpos : Spec.tokenPositions "1-9007199254740992"
                 = Spec.interval 1 Binary64.two53).
  { unfold Spec.tokenPositions.
    replace (JS.includes "-"%char "1-9007199254740992") with true
      by reflexivity.
    replace (map JS.parseInt (JS.split "-"%char "1-9007199254740992"))
      with [Some 1; Some Binary64.two53] by reflexivity.
    reflexivity. }
  unfold Spec.tokenGroup. rewrite Hpos.
  remember (Z.to_nat Binary64.two53) as n eqn:En.
  assert (Hn : Z.of_nat n = Binary64.two53)
    by (subst n; apply Z2Nat.id; discriminate).
  replace 1 with (Z.of_nat 1) by reflexivity.
  replace Binary64.two53 with (Z.of_nat 1 + Z.of_nat n - 1) at 1 by lia.
  rewrite (viewAt_interval_slice view n 0).
  cbn [skipn]. rewrite firstn_all2 by lia. reflexivity.
Qed.

(** C1.  The claim is what the code sets out to do and does for every
    numeral below 2^53, but the loop runs over every integer up to the end
    bound instead of stopping at the end of the view: on the token
    [1-9007199254740992] the counter reaches 2^53, where [j++] leaves it
    unchanged, and the loop is still running after any number of steps,
    whatever the view, where the claim has the token resolve to the
    positions of the view. *)
Theorem range_loop_never_returns :
  forall (fuel : nat) (view : list Z) (v0 v1 v2 v3 v4 : Z),
    Binary64.partIndices fuel view "1-9007199254740992" = None
    /\ Spec.tokenGroup [v0; v1; v2; v3; v4] "1-9007199254740992"
       = [Some v0; Some v1; Some v2; Some v3; Some v4]
    /\ Binary64.succDouble 9007199254740992 = 9007199254740992
    /\ JS.split "-"%char "1-9007199254740992" = ["1"; "9007199254740992"]
    /\ JS.parseInt "9007199254740992" = Some 9007199254740992.
Proof.
  intros fuel view v0 v1 v2 v3 v4.
  split; [|split; [|repeat split; reflexivity]].
  - change (Binary64.partIndices fuel view "1-9007199254740992")
      with (Binary64.rangeLoop fuel view 1 Binary64.two53 []).
    apply rangeLoop_stalls. unfold Binary64.two53. lia.
  - apply (tokenGroup_whole_view [v0; v1; v2; v3; v4]).
    cbn. unfold Binary64.two53. lia.
Qed.

(** ** Range tokens below 2^53 *)

Lemma safePart_decimal_range (a b : nat) :
  Z.of_nat a < Binary64.two53 -> Z.of_nat b < Binary64.two53 ->
  safePart (JS.toString a ++ "-" ++ JS.toString b) = true.
Proof.
  intros Ha Hb. unfold safePart. cbn [append].
  rewrite includes_around.
  rewrite split_around by apply digits_without_dash, toString_digits.
  rewrite split_without by apply digits_without_dash, toString_digits.
  cbn [map]. rewrite !parseInt_toString.
  apply andb_true_intro. split; now apply Z.ltb_lt.
Qed.

Lemma decimal_range_slice (view : list Z) (a b : nat) :
  Split.partIndices view (JS.toString a ++ "-" ++ JS.toString b)
  = map Some (firstn (b - Nat.pred a) (skipn (Nat.pred a) view)).
Proof.
  rewrite partIndices_tokenGroup. unfold Spec.tokenGroup.
  rewrite tokenPositions_interval.
  destruct a as [|a].
  - rewrite interval_unfold by lia. cbn [flat_map Nat.pred].
    rewrite viewAt_out_of_range by lia. cbn [app].
    rewrite Nat.sub_0_r.
    replace (Z.of_nat 0 + 1) with (Z.of_nat 1) by lia.
    replace (Z.of_nat b) with (Z.of_nat 1 + Z.of_nat b - 1) by lia.
    apply (viewAt_interval_slice view b 0).
  - cbn [Nat.pred].
    destruct (Nat.le_gt_cases a b) as [Hab|Hab].
    + replace (Z.of_nat b)
        with (Z.of_nat (S a) + Z.of_nat (b - a) - 1) by lia.
      apply viewAt_interval_slice.
    + rewrite interval_empty by lia.
      now replace (b - a)%nat with O by lia.
Qed.

(** X1. For numerals below 2^53, the loop of the ranges branch returns on
    a token [a-b] written in decimal, and what it returns is the slice of
    the view from position [max a 1] to position [b], cut off at the end
    of the view: asking for more pages than the view has is not an
    error. *)
Theorem range_token_is_view_slice :
  forall (view : list Z) (a b : nat),
    Z.of_nat a < Binary64.two53 ->
    Z.of_nat b < Binary64.two53 ->
    let slice := map Some (firstn (b - Nat.pred a) (skipn (Nat.pred a) view)) in
    (exists fuel,
        Binary64.partIndices fuel view (JS.toString a ++ "-" ++ JS.toString b)
        = Some slice)
    /\ Split.partIndices view (JS.toString a ++ "-" ++ JS.toString b) = slice.
Proof.
  intros view a b Ha Hb slice. subst slice.
  pose proof (decimal_range_slice view a b) as Hslice.
  split; [|exact Hslice].
  destruct (partIndices_agrees view _ (safePart_decimal_range a b Ha Hb))
    as (fuel & Hfuel).
  exists fuel. now rewrite Hfuel, Hslice.
Qed.

Lemma range_token_is_view_slice_witness :
  Z.of_nat 2 < Binary64.two53
  /\ Z.of_nat 9 < Binary64.two53
  /\ Split.partIndices [10; 11; 12; 13; 14]
                       (JS.toString 2 ++ "-" ++ JS.toString 9)
     = [Some 11; Some 12; Some 13; Some 14].
Proof.
  assert (H2 : Z.of_nat 2 < Binary64.two53) by reflexivity.
  assert (H9 : Z.of_nat 9 < Binary64.two53) by reflexivity.
  split; [exact H2|]. split; [exact H9|].
  exact (proj2 (range_token_is_view_slice [10; 11; 12; 13; 14]
                                          2%nat 9%nat H2 H9)).
Defined.

(** ** Trimming *)

Lemma trimStart_whiteSpace (pre s : string) :
  Spec.allChars JS.isWhiteSpace pre = true ->
  JS.trimStart (pre ++ s) = JS.trimStart s.
Proof.
  induction pre as [|c pre IH]; cbn [append Spec.allChars JS.trimStart];
    [reflexivity|].
  intros [Hc Hpre]%andb_prop. rewrite Hc. now apply IH.
Qed.

Lemma trimStart_all_whiteSpace (s : string) :
  Spec.allChars JS.isWhiteSpace s = true -> JS.trimStart s = EmptyString.
Proof.
  induction s as [|c s IH]; cbn [Spec.allChars JS.trimStart]; [reflexivity|].
  intros [Hc Hs]%andb_prop. rewrite Hc. now apply IH.
Qed.

Lemma trimEnd_all_whiteSpace (s : string) :
  Spec.allChars JS.isWhiteSpace s = true -> JS.trimEnd s = EmptyString.
Proof.
  induction s as [|c s IH]; cbn [Spec.allChars JS.trimEnd]; [reflexivity|].
  intros [Hc Hs]%andb_prop. now rewrite (IH Hs), Hc.
Qed.

Lemma trimEnd_whiteSpace (s post : string) :
  Spec.allChars JS.isWhiteSpace post = true ->
  JS.trimEnd (s ++ post) = JS.trimEnd s.
Proof.
  intros Hpost. induction s as [|c s IH]; cbn [append JS.trimEnd].
  - now apply trimEnd_all_whiteSpace.
  - now rewrite IH.
Qed.

Lemma trimEnd_clean (s : string) : endsClean s = true -> JS.trimEnd s = s.
Proof.
  induction s as [|c s IH]; [reflexivity|].
  destruct s as [|d s].
  - cbn. now intros ->%negb_true_iff.
  - intros H. change (endsClean (String d s) = true) in H.
    cbn [JS.trimEnd] in IH |- *. now rewrite (IH H).
Qed.

(** What [trim] does: white space before and after is dropped, and what
    stands between is kept as it is. *)
Lemma trim_core (pre core post : string) :
  Spec.allChars JS.isWhiteSpace pre = true ->
  Spec.allChars JS.isWhiteSpace post = true ->
  startsClean core = true -> endsClean core = true ->
  JS.trim (pre ++ core ++ post) = core.
Proof.
  intros Hpre Hpost Hs He. unfold JS.trim.
  rewrite trimStart_whiteSpace by assumption.
  destruct core as [|c core].
  - cbn [append]. now rewrite trimStart_all_whiteSpace.
  - cbn [append JS.trimStart]. cbn in Hs.
    apply negb_true_iff in Hs. rewrite Hs.
    change (String c (core ++ post)) with (String c core ++ post).
    now rewrite trimEnd_whiteSpace, trimEnd_clean.
Qed.

Lemma whiteSpace_not_comma (s : string) :
  Spec.allChars JS.isWhiteSpace s = true -> JS.includes ","%char s = false.
Proof.
  induction s as [|c s IH]; cbn [Spec.allChars JS.includes]; [reflexivity|].
  intros [Hc Hs]%andb_prop. rewrite (IH Hs), orb_false_r.
  destruct (Ascii.eqb_spec c ","%char) as [->|]; [discriminate Hc|reflexivity].
Qed.

Lemma includes_app (c : ascii) (a b : string) :
  JS.includes c (a ++ b) = JS.includes c a || JS.includes c b.
Proof.
  induction a as [|x a IH]; cbn; [reflexivity|].
  now rewrite IH, orb_assoc.
Qed.

Lemma rangeFiles_numbers (avail : list Z) (parts : list string) :
  forall i : Z,
    NoDup (map fst (Split.rangeFiles avail i parts))
    /\ forall n, In n (map fst (Split.rangeFiles avail i parts)) -> i < n.
Proof.
  induction parts as [|part rest IH]; intros i.
  - split; [constructor | contradiction].
  - cbn [Split.rangeFiles]. destruct (IH (i + 1)) as [Hnd Hgt].
    destruct (0 <? Z.of_nat (List.length (Split.partIndices avail part))).
    + cbn [map fst]. split.
      * constructor; [|exact Hnd]. intros Hin. apply Hgt in Hin. lia.
      * intros n [<-|Hin]; [lia|]. apply Hgt in Hin. lia.
    + split; [exact Hnd|]. intros n Hin. apply Hgt in Hin. lia.
Qed.

Lemma file_fresh (entries : list Split.Entry) (e : Split.Entry) :
  ~ In (fst e) (map fst entries) ->
  Archive.file entries e = (entries ++ [e])%list.
Proof.
  induction entries as [|old rest IH]; intros H; [reflexivity|].
  cbn [Archive.file map In app] in *.
  destruct (Z.eqb_spec (fst old) (fst e)) as [E|E].
  - exfalso. apply H. now left.
  - rewrite IH; [reflexivity|]. intros Hin. apply H. now right.
Qed.

(** Calls with pairwise distinct names each leave their own entry. *)
Lemma entries_distinct (calls : list Split.Entry) :
  NoDup (map fst calls) -> Archive.entries calls = calls.
Proof.
  unfold Archive.entries.
  assert (H : forall acc,
             NoDup (map fst (acc ++ calls)) ->
             fold_left Archive.file calls acc = (acc ++ calls)%list).
  { induction calls as [|e rest IH]; intros acc Hnd.
    - cbn. now rewrite app_nil_r.
    - cbn [fold_left]. rewrite file_fresh.
      + rewrite IH; rewrite <- app_assoc; [reflexivity | exact Hnd].
      + rewrite map_app in Hnd. cbn [map] in Hnd.
        apply NoDup_remove_2 in Hnd. intros Hin. apply Hnd.
        apply in_or_app. now left. }
  intros Hnd. exact (H [] Hnd).
Qed.

(** X2. In ranges mode, for parts whose numerals are below 2^53, the loop
    returns on every part and the archive has an entry numbered [k]
    exactly when the [k]-th part (counted from 1) selects at least one
    page; the entry holds that part's pages.  Empty parts leave gaps in
    the numbering and never produce a document, and no entry replaces
    another.  A part is what stands between two commas without the white
    space around it. *)
Theorem range_entries_follow_tokens :
  forall (c : ascii) (r : string) (selectedPages sourceIndices : option (list Z))
         (pageCount : nat),
    forallb safePart (Split.rangeParts (String c r)) = true ->
    let avail := Split.availableIndices sourceIndices pageCount in
    exists files,
      Split.splitPdf Split.Ranges (Some (String c r)) selectedPages
                     sourceIndices pageCount
      = Split.Zip "-parts" files
      /\ (forall (n : Z) (g : list (option Z)),
             In (n, g) files
             <-> exists (k : nat) (part : string),
                   nth_error (Split.rangeParts (String c r)) k = Some part
                   /\ n = Z.of_nat k + 1
                   /\ g = Split.partIndices avail part
                   /\ g <> [])
      /\ (forall part, In part (Split.rangeParts (String c r)) ->
                       exists fuel,
                         Binary64.partIndices fuel avail part
                         = Some (Split.partIndices avail part))
      /\ Archive.entries files = files
      /\ (forall pre core post : string,
             Spec.allChars JS.isWhiteSpace pre = true ->
             Spec.allChars JS.isWhiteSpace post = true ->
             startsClean core = true -> endsClean core = true ->
             JS.includes ","%char core = false ->
             Split.rangeParts (pre ++ core ++ post) = [core]).
Proof.
  intros c r selectedPages sourceIndices pageCount Hsafe avail.
  eexists. split; [reflexivity|]. fold avail.
  split; [|split; [|split]].
  - intros n g. rewrite rangeFiles_In.
    split; intros (k & p & H1 & H2 & H3); exists k, p;
      (split; [exact H1 | split; [lia | exact H3]]).
  - intros part Hin. apply partIndices_agrees.
    rewrite forallb_forall in Hsafe. now apply Hsafe.
  - apply entries_distinct, rangeFiles_numbers.
  - intros pre core post Hpre Hpost Hs He Hcomma.
    unfold Split.rangeParts. rewrite split_without.
    + cbn [map]. now rewrite trim_core.
    + rewrite !includes_app, Hcomma.
      now rewrite !whiteSpace_not_comma.
Qed.

Lemma range_entries_follow_tokens_witness :
  forallb safePart (Split.rangeParts " 1-3 , 8,x, 5") = true
  /\ Spec.allChars JS.isWhiteSpace " " = true
  /\ startsClean "1-3" = true /\ endsClean "1-3" = true
  /\ JS.includes ","%char "1-3" = false
  /\ Split.rangeParts (" " ++ "1-3" ++ " ") = ["1-3"]
  /\ exists files,
       Split.splitPdf Split.Ranges (Some " 1-3 , 8,x, 5") None
                      (Some [10; 11; 12; 13; 14]) 5
       = Split.Zip "-parts" files
       /\ Archive.entries files = files.
Proof.
  assert (H : forallb safePart (Split.rangeParts " 1-3 , 8,x, 5") = true)
    by reflexivity.
  destruct (range_entries_follow_tokens " "%char "1-3 , 8,x, 5" None
              (Some [10; 11; 12; 13; 14]) 5%nat H)
    as (files & Hfiles & _ & _ & Hentries & Htrim).
  split; [exact H|].
  do 4 (split; [reflexivity|]).
  split; [apply Htrim; reflexivity|].
  exists files. split; [exact Hfiles | exact Hentries].
Defined.

(** ** Selected pages in the archive *)

Lemma NoDup_map_succ (l : list Z) :
  NoDup l -> NoDup (map (fun idx => idx + 1) l).
Proof.
  induction 1 as [|x l Hx Hl IH]; cbn [map]; constructor; [|exact IH].
  intros Hin. apply in_map_iff in Hin as (y & Hy & Hin).
  assert (y = x) by lia. subst y. contradiction.
Qed.

Lemma selectedFiles_distinct (avail selectedPages : list Z) :
  NoDup selectedPages ->
  NoDup (map fst (Split.selectedFiles avail selectedPages)).
Proof.
  intros H. rewrite selectedFiles_numbers.
  now apply NoDup_map_succ, NoDup_filter.
Qed.

Lemma file_names (entries : list Split.Entry) (e : Split.Entry) :
  forall n, In n (map fst (Archive.file entries e))
            <-> In n (map fst entries) \/ n = fst e.
Proof.
  induction entries as [|old rest IH]; intros n; cbn [Archive.file map In].
  - intuition.
  - destruct (Z.eqb_spec (fst old) (fst e)) as [E|E]; cbn [map In].
    + rewrite E. intuition.
    + rewrite IH. intuition.
Qed.

Lemma file_names_distinct (entries : list Split.Entry) (e : Split.Entry) :
  NoDup (map fst entries) -> NoDup (map fst (Archive.file entries e)).
Proof.
  induction entries as [|old rest IH]; intros H; cbn [Archive.file map].
  - repeat constructor. intros [].
  - cbn [map] in H. apply NoDup_cons_iff in H as [Hold Hrest].
    destruct (Z.eqb_spec (fst old) (fst e)) as [E|E]; cbn [map].
    + constructor; [now rewrite <- E | exact Hrest].
    + constructor; [|now apply IH].
      rewrite file_names. intros [H|H]; [contradiction | congruence].
Qed.

(** No two entries of an archive have the same name. *)
Lemma entries_names_distinct (calls : list Split.Entry) :
  NoDup (map fst (Archive.entries calls)).
Proof.
  unfold Archive.entries.
  assert (H : forall acc, NoDup (map fst acc) ->
                          NoDup (map fst (fold_left Archive.file calls acc))).
  { induction calls as [|e rest IH]; intros acc Hacc; [exact Hacc|].
    cbn [fold_left]. now apply IH, file_names_distinct. }
  apply H. constructor.
Qed.




(** X3. For pairwise distinct positions, no document of selected mode
    replaces another, the entry written for position [idx] is numbered
    [idx + 1], and the document made by extract mode from the same
    positions is the documents of selected mode put one after the
    other. *)
Theorem extract_joins_selected :
  forall (ranges : option string) (p : Z) (ps : list Z)
         (sourceIndices : option (list Z)) (pageCount : nat),
    NoDup (p :: ps) ->
    exists files,
      Split.splitPdf Split.Selected ranges (Some (p :: ps))
                     sourceIndices pageCount
      = Split.Zip "-selected" files
      /\ Archive.entries files = files
      /\ Split.splitPdf Split.Extract ranges (Some (p :: ps))
                        sourceIndices pageCount
         = Split.Pdf (List.concat
                        (Archive.documents
                           (Split.splitPdf Split.Selected ranges
                              (Some (p :: ps)) sourceIndices pageCount)))
      /\ map fst files
         = map (fun idx => idx + 1)
               (filter (fun idx =>
                          (0 <=? idx)
                          && (idx <? Split.Array_length
                                       (Split.availableIndices sourceIndices
                                                               pageCount)))
                       (p :: ps)).
Proof.
  intros ranges p ps sourceIndices pageCount Hnd.
  set (avail := Split.availableIndices sourceIndices pageCount).
  assert (E : Archive.entries (Split.selectedFiles avail (p :: ps))
              = Split.selectedFiles avail (p :: ps))
    by now apply entries_distinct, selectedFiles_distinct.
  eexists. split; [reflexivity|]. fold avail.
  split; [exact E|]. split.
  - cbn [Split.splitPdf Archive.documents]. fold avail. rewrite E.
    f_equal.
    rewrite selectedFiles_groups, indicesToExtract_atPositions.
    now rewrite concat_singletons.
  - apply selectedFiles_numbers.
Qed.

Lemma extract_joins_selected_witness :
  NoDup [3; 0; 9]
  /\ Split.splitPdf Split.Extract None (Some [3; 0; 9])
                    (Some [10; 11; 12; 13; 14]) 5
     = Split.Pdf (List.concat
                    (Archive.documents
                       (Split.splitPdf Split.Selected None (Some [3; 0; 9])
                                       (Some [10; 11; 12; 13; 14]) 5))).
Proof.
  assert (H : NoDup [3; 0; 9]).
  { repeat constructor; cbn; intuition discriminate. }
  split; [exact H|].
  destruct (extract_joins_selected None 3 [0; 9] (Some [10; 11; 12; 13; 14])
                                   5%nat H) as (files & _ & _ & Hx & _).
  exact Hx.
Defined.

(** X4. Positions outside the view are passed over without an error: when
    every supplied position is outside the view, selected mode returns an
    archive with no entry, and extract mode copies no page, so that the
    document it returns holds only the blank page that [save()] adds. *)
Theorem positions_outside_view_give_nothing :
  forall (ranges : option string) (p : Z) (ps : list Z)
         (sourceIndices : option (list Z)) (pageCount : nat),
    (forall i, In i (p :: ps) ->
               i < 0
               \/ Split.Array_length
                    (Split.availableIndices sourceIndices pageCount) <= i) ->
    Split.splitPdf Split.Selected ranges (Some (p :: ps))
                   sourceIndices pageCount
    = Split.Zip "-selected" []
    /\ Split.splitPdf Split.Extract ranges (Some (p :: ps))
                      sourceIndices pageCount
       = Split.Pdf []
    /\ Archive.savedPages
         (Split.splitPdf Split.Extract ranges (Some (p :: ps))
                         sourceIndices pageCount)
       = Some 1%nat.
Proof.
  intros ranges p ps sourceIndices pageCount H.
  cbn [Split.splitPdf].
  set (avail := Split.availableIndices sourceIndices pageCount) in *.
  pose proof (atPositions_out_of_range avail (p :: ps) H) as E.
  assert (Hx : Split.indicesToExtract avail (p :: ps) = [])
    by now rewrite indicesToExtract_atPositions, E.
  rewrite Hx. split; [|split; reflexivity].
  f_equal.
  pose proof (selectedFiles_groups avail (p :: ps)) as G.
  rewrite E in G.
  destruct (Split.selectedFiles avail (p :: ps)); [reflexivity | discriminate].
Qed.

Lemma positions_outside_view_give_nothing_witness :
  (forall i, In i [7; -1] ->
             i < 0
             \/ Split.Array_length
                  (Split.availableIndices (Some [10; 11; 12; 13; 14]) 9) <= i)
  /\ Split.splitPdf Split.Selected None (Some [7; -1])
                    (Some [10; 11; 12; 13; 14]) 9
     = Split.Zip "-selected" []
  /\ Archive.savedPages
       (Split.splitPdf Split.Extract None (Some [7; -1])
                       (Some [10; 11; 12; 13; 14]) 9)
     = Some 1%nat.
Proof.
  assert (H : forall i, In i [7; -1] ->
                i < 0
                \/ Split.Array_length
                     (Split.availableIndices (Some [10; 11; 12; 13; 14]) 9)
                   <= i).
  { cbn. intros i [<-|[<-|[]]]; lia. }
  split; [exact H|].
  destruct (positions_outside_view_give_nothing
              None 7 [-1] (Some [10; 11; 12; 13; 14]) 9%nat H)
    as (H1 & _ & H3).
  split; [exact H1 | exact H3].
Defined.

(** X5. Edge cases of delete mode, none of which is an error: excluding
    nothing copies the whole view; excluding every position copies no
    page, and the document returned then holds only the blank page that
    [save()] adds; positions outside the view in the excluded list change
    nothing. *)
Theorem delete_edge_cases :
  forall (ranges : option string) (excluded outside view : list Z)
         (pageCount : nat),
    (forall i, In i outside ->
               i < 0 \/ Z.of_nat (List.length view) <= i) ->
    Split.splitPdf Split.Delete ranges (Some []) (Some view) pageCount
    = Split.Pdf (map Some view)
    /\ Split.splitPdf Split.Delete ranges
                      (Some (map Z.of_nat (seq 0 (List.length view))))
                      (Some view) pageCount
       = Split.Pdf []
    /\ Archive.savedPages
         (Split.splitPdf Split.Delete ranges
                         (Some (map Z.of_nat (seq 0 (List.length view))))
                         (Some view) pageCount)
       = Some 1%nat
    /\ Archive.savedPages
         (Split.splitPdf Split.Delete ranges (Some []) (Some view) pageCount)
       = Some (Nat.max 1 (List.length view))
    /\ Split.splitPdf Split.Delete ranges (Some (excluded ++ outside)%list)
                      (Some view) pageCount
       = Split.splitPdf Split.Delete ranges (Some excluded)
                        (Some view) pageCount.
Proof.
  intros ranges excluded outside view pageCount Hout.
  cbn [Split.splitPdf Split.availableIndices].
  rewrite !pageIndicesToKeep_complement.
  rewrite complement_nil.
  rewrite complement_all.
  2:{ intros k Hk. apply in_map_iff. exists (Z.to_nat k).
      split; [lia | apply in_seq; lia]. }
  split; [reflexivity|]. split; [reflexivity|]. split; [reflexivity|].
  split.
  - cbn [Archive.savedPages]. rewrite length_map.
    now destruct view.
  - f_equal. f_equal. apply complement_ext_in_view.
    intros k Hk. rewrite in_app_iff. split; [|now left].
    intros [H|H]; [exact H|]. apply Hout in H. lia.
Qed.

Lemma delete_edge_cases_witness :
  (forall i, In i [9; -2] ->
             i < 0 \/ Z.of_nat (List.length [10; 11; 12; 13; 14]) <= i)
  /\ Split.splitPdf Split.Delete None (Some ([1; 3] ++ [9; -2])%list)
                    (Some [10; 11; 12; 13; 14]) 20
     = Split.splitPdf Split.Delete None (Some [1; 3])
                      (Some [10; 11; 12; 13; 14]) 20.
Proof.
  assert (H : forall i, In i [9; -2] ->
                i < 0 \/ Z.of_nat (List.length [10; 11; 12; 13; 14]) <= i).
  { cbn. intros i [<-|[<-|[]]]; lia. }
  split; [exact H|].
  exact (proj2 (proj2 (proj2 (proj2 (delete_edge_cases None [1; 3] [9; -2]
                         [10; 11; 12; 13; 14] 20%nat H))))).
Defined.

(** ** Merging and cropping *)

Section MergeFacts.

Variable Page : Type.

Lemma copyPages_all (doc : list Page) :
  PdfOps.copyPages Page doc (PdfOps.getPageIndices Page doc) = map Some doc.
Proof.
  unfold PdfOps.copyPages, PdfOps.getPageIndices.
  assert (H : forall pre rest : list Page,
             map (nth_error (pre ++ rest))
                 (seq (List.length pre) (List.length rest))
             = map Some rest).
  { intros pre rest. revert pre.
    induction rest as [|x rest IH]; intros pre; [reflexivity|].
    cbn [List.length seq map].
    rewrite nth_error_app2, Nat.sub_diag by lia. cbn [nth_error].
    f_equal. specialize (IH (pre ++ [x])%list).
    rewrite <- app_assoc, length_app, Nat.add_1_r in IH. exact IH. }
  exact (H [] doc).
Qed.

Lemma addPages_all (merged doc : list Page) :
  PdfOps.addPages Page merged (map Some doc) = (merged ++ doc)%list.
Proof.
  revert merged. induction doc as [|x doc IH]; intros merged; cbn.
  - now rewrite app_nil_r.
  - now rewrite IH, <- app_assoc.
Qed.

Lemma mergePdfs_from (files : list (list Page)) :
  forall merged : list Page,
    fold_left (fun mergedPdf pdfDoc =>
                 PdfOps.addPages Page mergedPdf
                   (PdfOps.copyPages Page pdfDoc
                                     (PdfOps.getPageIndices Page pdfDoc)))
              files merged
    = (merged ++ List.concat files)%list.
Proof.
  induction files as [|doc files IH]; intros merged; cbn.
  - now rewrite app_nil_r.
  - now rewrite IH, copyPages_all, addPages_all, app_assoc.
Qed.

Lemma mergePdfs_save (blank : Page) (files : list (list Page)) :
  PdfOps.mergePdfs Page blank files
  = PdfOps.save Page blank (List.concat files).
Proof. unfold PdfOps.mergePdfs. now rewrite mergePdfs_from. Qed.

End MergeFacts.

(** X15. When the files have a page between them, the merged document
    holds every page of every file, file after file and each file in its
    own page order, and its page count is the sum of the page counts;
    merging two such lists of files one after the other is merging each
    and joining the results.  When they have none, the result is the one
    blank page that [save()] adds. *)
Theorem merge_concatenates :
  forall (Page : Type) (blank : Page) (files files' : list (list Page)),
    (List.concat files <> [] ->
     PdfOps.mergePdfs Page blank files = List.concat files
     /\ List.length (PdfOps.mergePdfs Page blank files)
        = list_sum (map (@List.length Page) files))
    /\ (List.concat files = [] ->
        PdfOps.mergePdfs Page blank files = [blank])
    /\ (List.concat files <> [] -> List.concat files' <> [] ->
        PdfOps.mergePdfs Page blank (files ++ files')
        = (PdfOps.mergePdfs Page blank files
           ++ PdfOps.mergePdfs Page blank files')%list).
Proof.
  intros Page blank files files'. rewrite !mergePdfs_save.
  assert (Hsave : forall doc : list Page,
             doc <> [] -> PdfOps.save Page blank doc = doc).
  { intros [|x doc] H; [congruence | reflexivity]. }
  split; [|split].
  - intros Hne. rewrite (Hsave _ Hne). split; [reflexivity|].
    clear. induction files as [|doc fs IH]; [reflexivity|].
    cbn. now rewrite length_app, IH.
  - intros ->. reflexivity.
  - intros Hne Hne'. rewrite concat_app, !Hsave; try assumption.
    + reflexivity.
    + intros E. apply app_eq_nil in E as [E _]. contradiction.
Qed.

Lemma merge_concatenates_witness :
  List.concat [[1; 2]; []; [3]] <> []
  /\ PdfOps.mergePdfs Z 0 [[1; 2]; []; [3]] = [1; 2; 3]
  /\ List.concat [[]; @nil Z] = []
  /\ PdfOps.mergePdfs Z 0 [[]; []] = [0].
Proof.
  assert (H1 : List.concat [[1; 2]; []; [3]] <> []) by discriminate.
  assert (H2 : List.concat [[]; @nil Z] = []) by reflexivity.
  destruct (merge_concatenates Z 0 [[1; 2]; []; [3]] []) as (Ha & _ & _).
  destruct (merge_concatenates Z 0 [[]; []] []) as (_ & Hb & _).
  split; [exact H1|]. split; [exact (proj1 (Ha H1))|].
  split; [exact H2 | exact (Hb H2)].
Defined.

(** X17. Whatever is typed into the margin inputs, the margins stay
    non-negative, so the crop box set on a page has its corner at
    (left, bottom) in the non-negative quadrant.  The margins are not
    checked against the page: a left or bottom margin larger than the
    page puts the corner beyond the opposite edge, and any margin larger
    than the page gives a box of negative width or height.  Every page
    gets a box. *)
Theorem crop_box_corner_and_sign :
  forall (events : list (CropTool.Side * R)) (pages : list (R * R))
         (k : nat) (w h : R),
    nth_error pages k = Some (w, h) ->
    let m := CropTool.afterInputs events in
    List.length (PdfOps.cropPdf pages m) = List.length pages
    /\ exists box,
         nth_error (PdfOps.cropPdf pages m) k = Some box
         /\ (PdfOps.boxX box = PdfOps.left m
             /\ PdfOps.boxY box = PdfOps.bottom m
             /\ 0 <= PdfOps.boxX box
             /\ 0 <= PdfOps.boxY box
             /\ (w < PdfOps.left m ->
                 w < PdfOps.boxX box /\ PdfOps.boxWidth box < 0)
             /\ (w < PdfOps.right m -> PdfOps.boxWidth box < 0)
             /\ (h < PdfOps.bottom m ->
                 h < PdfOps.boxY box /\ PdfOps.boxHeight box < 0)
             /\ (h < PdfOps.top m -> PdfOps.boxHeight box < 0))%R.
Proof.
  intros events pages k w h Hk m.
  destruct (afterInputs_nonNegative events) as (Hl & Hr & Ht & Hb).
  fold m in Hl, Hr, Ht, Hb.
  split; [apply length_map|].
  eexists. split.
  - unfold PdfOps.cropPdf. rewrite nth_error_map, Hk. reflexivity.
  - cbn. repeat split; lra.
Qed.

Lemma crop_box_corner_and_sign_witness :
  nth_error [(600, 800)%R] 0 = Some (600, 800)%R
  /\ exists box,
       nth_error (PdfOps.cropPdf [(600, 800)%R]
                    (CropTool.afterInputs [(CropTool.Left, (-5)%R);
                                           (CropTool.Right, 700%R)])) 0
       = Some box
       /\ (0 <= PdfOps.boxX box)%R
       /\ (PdfOps.boxWidth box < 0)%R.
Proof.
  assert (H : nth_error [(600, 800)%R] 0 = Some (600, 800)%R) by reflexivity.
  split; [exact H|].
  destruct (crop_box_corner_and_sign [(CropTool.Left, (-5)%R);
                                      (CropTool.Right, 700%R)]
              [(600, 800)%R] 0%nat 600%R 800%R H)
    as (_ & box & Hbox & _ & _ & Hx & _ & _ & Hw & _).
  exists box. split; [exact Hbox|]. split; [exact Hx|].
  apply Hw. cbn. unfold Rmax. destruct (Rle_dec 0 700); lra.
Defined.
